(** * Evidence-map dashboard ([app_opcion2.py]): model and properties

    The script loads a table of article observations, reshapes it into a
    long table (one row per article and outcome tier), aggregates it per
    (capability level 1, capability level 2, outcome tier, outcome name),
    builds the two hierarchical axes of a bubble chart and answers clicks
    on a bubble with the list of contributing articles.

    Python values are modelled as follows, for Python 3.11.
    - [str] is [string]: the sequence of bytes of the UTF-8 encoding.
      Concatenation, [startswith], [split] and the ordering of strings are
      the same on code points and on UTF-8 bytes; [strip], the pattern of
      the numeric prefix and [int] work on the code points, which [chars]
      recovers from the bytes.
    - [float] is [spec_float] with the binary64 parameters; a missing
      number is NaN, as in pandas.
    - a data frame is its list of column names and its list of rows, a
      row being the list of its cells, each with the name of its column.

    The model covers the tables, the keys, orders and tick texts of the
    two axes, the size reference of the markers with the size at which the
    renderer draws a bubble, and the click handler.  The annotations and
    the layout of the figure are display only and are left out. *)

From Stdlib Require Import ZArith List Bool Ascii String Lia Arith.
From Stdlib Require Import Floats.SpecFloat.
From Stdlib Require Import Sorting.Permutation Sorting.Sorted.
From Stdlib Require Import Numbers.DecimalString.
From Stdlib Require Import QArith Qabs Qminmax Qpower Lqa.
From Stdlib Require Numbers.DecimalNat.
Import ListNotations.

Close Scope Q_scope.

Open Scope list_scope.
Open Scope string_scope.

(** ** Binary64 numbers *)

Module F64.

Definition prec : Z := 53.
Definition emax : Z := 1024.

(** [float(n)] for an integer [n]. *)
Definition of_Z (n : Z) : spec_float := binary_normalize prec emax n 0 false.

(** The binary64 number nearest to the decimal [p/q]; this is the value
    Python gives to a literal such as [2.6] ([of_ratio 26 10]). *)
Definition of_ratio (p q : Z) : spec_float := SFdiv prec emax (of_Z p) (of_Z q).

Definition mul : spec_float -> spec_float -> spec_float := SFmul prec emax.
Definition div : spec_float -> spec_float -> spec_float := SFdiv prec emax.
Definition add : spec_float -> spec_float -> spec_float := SFadd prec emax.

Definition is_nan (x : spec_float) : bool :=
  match x with S754_nan => true | _ => false end.

(** Python's comparison operators on floats. *)
Definition eq (x y : spec_float) : bool := SFeqb x y.
Definition lt (x y : spec_float) : bool := SFltb x y.
Definition le (x y : spec_float) : bool := SFleb x y.
Definition ge (x y : spec_float) : bool := SFleb y x.

End F64.

Declare Scope f64_scope.
Delimit Scope f64_scope with f64.
Infix "==" := F64.eq (at level 70, no associativity) : f64_scope.
Infix "<" := F64.lt : f64_scope.
Infix "<=" := F64.le : f64_scope.
Infix ">=" := F64.ge : f64_scope.

(** ** Labels of strength and direction (lines 121-135) *)

Definition c_2_6 : spec_float := Eval vm_compute in F64.of_ratio 26 10.
Definition c_2_4 : spec_float := Eval vm_compute in F64.of_ratio 24 10.
Definition c_1_5 : spec_float := Eval vm_compute in F64.of_ratio 3 2.
Definition c_1_0 : spec_float := Eval vm_compute in F64.of_Z 1.
Definition c_0_5 : spec_float := Eval vm_compute in F64.of_ratio 1 2.
Definition c_m0_5 : spec_float := Eval vm_compute in SFopp (F64.of_ratio 1 2).
Definition c_m1_0 : spec_float := Eval vm_compute in F64.of_Z (-1).

(** [pd.isna] on a float. *)
Definition isna_float (x : spec_float) : bool := F64.is_nan x.

Definition map_strength_label (x : spec_float) : string :=
  if isna_float x then "N/A"
  else if (x >= c_2_6)%f64 then "high"
  else if (x >= c_2_4)%f64 then "moderate"
  else if (x >= c_1_5)%f64 then "low-moderate"
  else if (x >= c_1_0)%f64 then "low"
  else "very low".

(** The last [elif] has no [else]: the function then ends without a
    [return], and its value is [None]. *)
Definition map_direction_label (x : spec_float) : option string :=
  if isna_float x then Some "N/A"
  else if (x == c_1_0)%f64 then Some "positive"
  else if (c_0_5 < x)%f64 && (x < c_1_0)%f64 then Some "mostly positive"
  else if (c_m0_5 < x)%f64 && (x <= c_0_5)%f64 then Some "inconclusive/mixed"
  else if (c_m1_0 < x)%f64 && (x <= c_m0_5)%f64 then Some "mostly negative"
  else if (x == c_m1_0)%f64 then Some "negative"
  else None.

(** ** Strings *)

Definition nl : string := String (ascii_of_nat 10) "".
Definition dquote : string := String (ascii_of_nat 34) "".

(** [s.startswith(p)] *)
Definition startswith (s p : string) : bool := String.prefix p s.

Fixpoint drop (k : nat) (s : string) : string :=
  match k, s with
  | O, _ => s
  | S k', String _ s' => drop k' s'
  | S _, EmptyString => EmptyString
  end.

(** [s.split(sep, 1)]: cut at the leftmost occurrence of [sep]; the list
    has one element when [sep] does not occur.  ([sep] is not empty at
    every call of the script.) *)
Fixpoint split1 (sep s : string) : list string :=
  if String.prefix sep s then [EmptyString; drop (String.length sep) s]
  else match s with
       | EmptyString => [s]
       | String c s' =>
           match split1 sep s' with
           | [a; b] => [String c a; b]
           | _ => [s]
           end
       end.

(** [sep in s] and [s.endswith(p)], used to state provisos. *)
Fixpoint contains (s sep : string) : bool :=
  String.prefix sep s ||
  match s with
  | EmptyString => false
  | String _ s' => contains s' sep
  end.

Fixpoint endswith (s p : string) : bool :=
  String.eqb s p ||
  match s with
  | EmptyString => false
  | String _ s' => endswith s' p
  end.

Definition in_range (lo hi : nat) (c : ascii) : bool :=
  let k := nat_of_ascii c in (lo <=? k)%nat && (k <=? hi)%nat.

(** Character classes of ASCII.  Python's [str.lower] also knows letters
    outside ASCII.  The only code points outside ASCII whose lower-case
    form holds an ASCII letter are U+212A (k) and U+0130 (i followed by a
    combining dot), and neither can take part in a match of the word
    "surveillance", so [startswith] after [lower] is exact for that word.
    [is_space] and [is_digit] are the blanks and the digits that are ASCII
    characters; the classes that [str.strip], [\s], [\d] and [int] use are
    [is_uspace] and [digit_value] below. *)
Definition is_upper (c : ascii) : bool := in_range 65 90 c.
Definition is_digit (c : ascii) : bool := in_range 48 57 c.

Definition lower_char (c : ascii) : ascii :=
  if is_upper c then ascii_of_nat (nat_of_ascii c + 32) else c.

Fixpoint lower (s : string) : string :=
  match s with
  | EmptyString => EmptyString
  | String c s' => String (lower_char c) (lower s')
  end.

(** *** Characters of a text

    A Python [str] is a sequence of code points, and a text of the model is
    its UTF-8 encoding.  [chars] cuts a text into its characters, each one
    the bytes of one code point: the first byte of a character tells how
    many bytes it has.  (In a text that is not UTF-8 a byte from 128 to 191
    that begins a character stands alone, and the last character may be cut
    short; [code_point] gives [None] for both.) *)
Definition char_len (b : ascii) : nat :=
  let k := nat_of_ascii b in
  if (k <? 192)%nat then 1%nat
  else if (k <? 224)%nat then 2%nat
  else if (k <? 240)%nat then 3%nat
  else 4%nat.

(** [chars_aux k s]: the [k] bytes at the head of [s] that still belong to
    the character begun before [s], and the characters of what follows. *)
Fixpoint chars_aux (k : nat) (s : string) : string * list string :=
  match s with
  | EmptyString => (EmptyString, [])
  | String b s' =>
      match k with
      | S k' => let (c, l) := chars_aux k' s' in (String b c, l)
      | O => let (c, l) := chars_aux (char_len b - 1) s' in
             (EmptyString, String b c :: l)
      end
  end.

Definition chars (s : string) : list string := snd (chars_aux 0 s).

(** [''.join(l)] *)
Definition join (l : list string) : string := fold_right append EmptyString l.

Definition code_point (ch : string) : option N :=
  match map N_of_ascii (list_ascii_of_string ch) with
  | [a] => if (a <? 128)%N then Some a else None
  | [a; b] =>
      if (a <? 224)%N then Some ((a mod 32) * 64 + b mod 64)%N else None
  | [a; b; c] =>
      if (a <? 240)%N
      then Some ((a mod 16) * 4096 + (b mod 64) * 64 + c mod 64)%N
      else None
  | [a; b; c; d] =>
      Some ((a mod 8) * 262144 + (b mod 64) * 4096 + (c mod 64) * 64 + d mod 64)%N
  | _ => None
  end.

(** The code points for which [str.isspace] holds.  [str.strip] removes
    them and [\s] matches them in a pattern that is a [str]. *)
Definition unicode_spaces : list N :=
  [0x9; 0xA; 0xB; 0xC; 0xD; 0x1C; 0x1D; 0x1E; 0x1F; 0x20; 0x85; 0xA0;
   0x1680; 0x2000; 0x2001; 0x2002; 0x2003; 0x2004; 0x2005; 0x2006; 0x2007;
   0x2008; 0x2009; 0x200A; 0x2028; 0x2029; 0x202F; 0x205F; 0x3000]%N.

Definition is_uspace (c : N) : bool := existsb (N.eqb c) unicode_spaces.

(** The decimal digits of Unicode 14.0 (category Nd), which Python 3.11
    uses: [\d] matches them and [int] reads them.  Each entry is the code
    point of a digit zero; the nine code points after it are the digits
    one to nine of the same script. *)
Definition digit_zeros : list N :=
  [0x30; 0x660; 0x6F0; 0x7C0; 0x966; 0x9E6; 0xA66; 0xAE6; 0xB66; 0xBE6;
   0xC66; 0xCE6; 0xD66; 0xDE6; 0xE50; 0xED0; 0xF20; 0x1040; 0x1090;
   0x17E0; 0x1810; 0x1946; 0x19D0; 0x1A80; 0x1A90; 0x1B50; 0x1BB0; 0x1C40;
   0x1C50; 0xA620; 0xA8D0; 0xA900; 0xA9D0; 0xA9F0; 0xAA50; 0xABF0; 0xFF10;
   0x104A0; 0x10D30; 0x11066; 0x110F0; 0x11136; 0x111D0; 0x112F0; 0x11450;
   0x114D0; 0x11650; 0x116C0; 0x11730; 0x118E0; 0x11950; 0x11C50; 0x11D50;
   0x11DA0; 0x16A60; 0x16AC0; 0x16B50; 0x1D7CE; 0x1D7D8; 0x1D7E2; 0x1D7EC;
   0x1D7F6; 0x1E140; 0x1E2F0; 0x1E950; 0x1FBF0]%N.

Definition digit_value (c : N) : option N :=
  match find (fun z => (z <=? c)%N && (c <? z + 10)%N) digit_zeros with
  | Some z => Some (c - z)%N
  | None => None
  end.

Definition is_space_char (ch : string) : bool :=
  match code_point ch with
  | Some c => is_uspace c
  | None => false
  end.

Definition digit_of_char (ch : string) : option N :=
  match code_point ch with
  | Some c => digit_value c
  | None => None
  end.

(** [s.strip()]: the blanks at the head of the characters are dropped, then
    those at the end. *)
Fixpoint lstrip_chars (l : list string) : list string :=
  match l with
  | [] => []
  | c :: l' => if is_space_char c then lstrip_chars l' else l
  end.

Fixpoint rstrip_chars (l : list string) : list string :=
  match l with
  | [] => []
  | c :: l' =>
      match rstrip_chars l' with
      | [] => if is_space_char c then [] else [c]
      | t => c :: t
      end
  end.

Definition strip (s : string) : string :=
  join (rstrip_chars (lstrip_chars (chars s))).

(** [str(k)] for a natural number. *)
Definition str_of_nat (k : nat) : string :=
  NilEmpty.string_of_uint (Nat.to_uint k).

(** The longest run of digits at the head of a list of characters, and
    what follows. *)
Fixpoint span_digits (l : list string) : list string * list string :=
  match l with
  | [] => ([], [])
  | c :: l' =>
      match digit_of_char c with
      | Some _ => let (ds, rest) := span_digits l' in (c :: ds, rest)
      | None => ([], l)
      end
  end.

(** [re.match(r"\s*(\d+)[\.\)]", s)]: group 1 of the match, if any.  The
    three parts of the pattern are greedy and cannot give back a
    character to the next one, so there is one way to match. *)
Definition re_match_prefix (s : string) : option string :=
  let (ds, rest) := span_digits (lstrip_chars (chars s)) in
  match ds, rest with
  | [], _ => None
  | _, c :: _ =>
      if String.eqb c "." || String.eqb c ")" then Some (join ds) else None
  | _, [] => None
  end.

(** [int(ds)] for a text of digits, of any script. *)
Definition int_of_digits (ds : string) : Z :=
  fold_left (fun acc c =>
               (10 * acc + match digit_of_char c with
                           | Some d => Z.of_N d
                           | None => 0
                           end)%Z)
            (chars ds) 0%Z.



(** ** Errors *)

Inductive exn : Type :=
| KeyError (c : string)
| KeyErrorInt (k : Z)
| ValueError
| IndexError
| TypeError.

Inductive result (A : Type) : Type :=
| Ok (a : A)
| Raise (e : exn).

Arguments Ok {A} a.
Arguments Raise {A} e.

Definition bind {A B : Type} (m : result A) (f : A -> result B) : result B :=
  match m with
  | Ok a => f a
  | Raise e => Raise e
  end.

Notation "x <- m ;; k" := (bind m (fun x => k))
  (at level 61, m at next level, right associativity).
Notation "' p <- m ;; k" := (bind m (fun x => match x with p => k end))
  (at level 61, p pattern, m at next level, right associativity).

(** ** Cells, rows and data frames *)

Inductive cell : Type :=
| NA
| Str (s : string)
| Num (x : spec_float).

Definition isna (c : cell) : bool :=
  match c with
  | NA => true
  | Str _ => false
  | Num x => F64.is_nan x
  end.

Definition spec_float_eqb (x y : spec_float) : bool :=
  match x, y with
  | S754_zero a, S754_zero b => Bool.eqb a b
  | S754_infinity a, S754_infinity b => Bool.eqb a b
  | S754_nan, S754_nan => true
  | S754_finite a m e, S754_finite b m' e' =>
      Bool.eqb a b && Pos.eqb m m' && Z.eqb e e'
  | _, _ => false
  end.

(** Equality of two cells.  The key columns of the script hold text, on
    which this is Python's [==]. *)
Definition cell_eqb (a b : cell) : bool :=
  match a, b with
  | NA, NA => true
  | Str s, Str t => String.eqb s t
  | Num x, Num y => spec_float_eqb x y
  | _, _ => false
  end.

(** [series == s] for a string [s], at one cell. *)
Definition cell_is (c : cell) (s : string) : bool := cell_eqb c (Str s).

Definition Row : Type := list (string * cell).

Record DataFrame : Type := mkDF {
  columns : list string;
  rows : list Row
}.

Definition mem (c : string) (cs : list string) : bool :=
  existsb (String.eqb c) cs.

Definition has_col (df : DataFrame) (c : string) : bool := mem c (columns df).

(** [row[c]]; a column the row does not have reads as missing, which is
    how pandas fills a row when it is given more columns. *)
Fixpoint get (r : Row) (c : string) : cell :=
  match r with
  | [] => NA
  | (k, v) :: r' => if String.eqb k c then v else get r' c
  end.

Definition reindex (cols : list string) (r : Row) : Row :=
  map (fun c => (c, get r c)) cols.

(** [df[cols]] *)
Definition getitem (df : DataFrame) (cols : list string) : result DataFrame :=
  match find (fun c => negb (has_col df c)) cols with
  | Some c => Raise (KeyError c)
  | None => Ok (mkDF cols (map (reindex cols) (rows df)))
  end.

(** [df.dropna(subset=cols, how="any")] *)
Definition dropna (df : DataFrame) (subset : list string) : result DataFrame :=
  match find (fun c => negb (has_col df c)) subset with
  | Some c => Raise (KeyError c)
  | None =>
      Ok (mkDF (columns df)
               (filter (fun r => forallb (fun c => negb (isna (get r c))) subset)
                       (rows df)))
  end.

Definition set_cell (r : Row) (c : string) (v : cell) : Row :=
  if mem c (map fst r)
  then map (fun kv => if String.eqb (fst kv) c then (c, v) else kv) r
  else (r ++ [(c, v)])%list.

(** [df.assign(c=f)]: the column [c], computed row by row, replaces the
    column of that name or comes last. *)
Definition assign (df : DataFrame) (c : string) (f : Row -> cell) : DataFrame :=
  mkDF (if has_col df c then columns df else (columns df ++ [c])%list)
       (map (fun r => set_cell r c (f r)) (rows df)).

(** [pd.concat(dfs, ignore_index=True)]: the columns are those of the
    frames in order of first appearance. *)
Definition union_cols (dfs : list DataFrame) : list string :=
  fold_left (fun acc d => (acc ++ filter (fun c => negb (mem c acc)) (columns d))%list)
            dfs [].

Definition concat (dfs : list DataFrame) : DataFrame :=
  let cols := union_cols dfs in
  mkDF cols (flat_map (fun d => map (reindex cols) (rows d)) dfs).

(** ** Column aliases (lines 12-34) *)

Definition COL_L1 := "INTERVENTION_Level 1_One Health Capability".
Definition COL_L2 := "INTERVENTION_Level 2".
Definition COL_INT_OUT := "INTERMEDIATE OUTCOME_Classification (dropdown)" ++ nl.
Definition COL_FIN_OUT := "OUTCOME_Classification (dropdown)" ++ nl ++ nl.
Definition COL_INT_STRENGTH := "_strength".
Definition COL_FIN_STRENGTH := "_strength_final".
Definition COL_INT_SIGN := "_sign".
Definition COL_FIN_SIGN := "_sign_final".
Definition COL_IMP_OUT :=
  "IMPACT_Classification (dropdown)" ++ nl ++ "AMR burden reduced = Impact".
Definition COL_IMP_STRENGTH := "_strength_impact".
Definition COL_IMP_SIGN := "_sign_impact".
Definition COL_IMP_TEXT := "IMPACT TEXT (verbatim)".
Definition COL_TITLE := "Title​ " ++ nl ++ "(213 articles)".
Definition COL_YEAR := "Publication Year​".
Definition COL_GEOG := "Geography​_Location".
Definition COL_INT_TEXT := "INTERMEDIATE OUTCOME TEXT (verbatim)".
Definition COL_INTERV_TEXT := "INTERVENTION TEXT (verbatim)" ++ nl.
Definition COL_OUT_TEXT := "OUTCOME TEXT (verbatim)".

(** ** Cleaning (lines 41-46) *)

Definition _clean (s : cell) : cell :=
  match s with
  | Str t => Str (strip t)
  | _ => s
  end.

Definition map_column (df : DataFrame) (c : string) (f : cell -> cell) : DataFrame :=
  mkDF (columns df) (map (fun r => set_cell r c (f (get r c))) (rows df)).

Definition clean_columns (df : DataFrame) : DataFrame :=
  fold_left (fun d c => if has_col d c then map_column d c _clean else d)
            [COL_L1; COL_L2; COL_INT_OUT; COL_FIN_OUT; COL_IMP_OUT] df.

(** ** Long table (lines 51-84) *)

Definition keep_base : list string :=
  [COL_L1; COL_L2; COL_TITLE; COL_YEAR; COL_GEOG;
   COL_INT_TEXT; COL_INTERV_TEXT; COL_OUT_TEXT; COL_IMP_TEXT].

Definition cols_keep (df : DataFrame) : list string :=
  filter (has_col df) keep_base.

(** One tier: the selection of its columns, [dropna] on the two levels and
    the outcome, and the four columns added by [assign]. *)
Definition tier_long (df : DataFrame) (out strength sign tier : string)
  : result DataFrame :=
  d1 <- getitem df (cols_keep df ++ [out; strength; sign])%list ;;
  d2 <- dropna d1 [COL_L1; COL_L2; out] ;;
  Ok (assign (assign (assign (assign d2
        "outcome_type" (fun _ => Str tier))
        "outcome_name" (fun x => get x out))
        "strength" (fun x => get x strength))
        "sign" (fun x => get x sign)).

Definition INTERMEDIATE := "Intermediate Outcomes".
Definition FINAL := "Final Outcomes".
Definition IMPACT := "Impact".

Definition int_long (df : DataFrame) : result DataFrame :=
  tier_long df COL_INT_OUT COL_INT_STRENGTH COL_INT_SIGN INTERMEDIATE.

Definition fin_long (df : DataFrame) : result DataFrame :=
  tier_long df COL_FIN_OUT COL_FIN_STRENGTH COL_FIN_SIGN FINAL.

Definition imp_required : list string :=
  [COL_IMP_OUT; COL_IMP_STRENGTH; COL_IMP_SIGN].

(** [il] is the intermediate table built before. *)
Definition imp_long (df il : DataFrame) : result DataFrame :=
  if forallb (has_col df) imp_required
  then tier_long df COL_IMP_OUT COL_IMP_STRENGTH COL_IMP_SIGN IMPACT
  else Ok (mkDF (columns il) []).

Definition long_of (df : DataFrame) : result DataFrame :=
  il <- int_long df ;;
  fl <- fin_long df ;;
  ml <- imp_long df il ;;
  Ok (concat [il; fl; ml]).

(** ** Sorting

    Insertion sort, for the places where the order of the result does not
    depend on the algorithm (the keys are pairwise distinct, or equal
    elements are the same value). *)

Fixpoint insert_by {A : Type} (leb : A -> A -> bool) (x : A) (l : list A) : list A :=
  match l with
  | [] => [x]
  | y :: l' => if leb x y then x :: l else y :: insert_by leb x l'
  end.

Definition isort_by {A : Type} (leb : A -> A -> bool) (l : list A) : list A :=
  fold_right (insert_by leb) [] l.

(** [series.unique()]: the values in order of first appearance. *)
Fixpoint unique {A : Type} (eqb : A -> A -> bool) (l : list A) : list A :=
  match l with
  | [] => []
  | x :: l' => x :: filter (fun y => negb (eqb x y)) (unique eqb l')
  end.

(** ** Aggregation (lines 89-93) *)

Definition key : Type := (cell * cell * cell * cell)%type.

Definition row_key (r : Row) : key :=
  (get r COL_L1, get r COL_L2, get r "outcome_type", get r "outcome_name").

Definition key_eqb (a b : key) : bool :=
  let '(a1, a2, a3, a4) := a in
  let '(b1, b2, b3, b4) := b in
  cell_eqb a1 b1 && cell_eqb a2 b2 && cell_eqb a3 b3 && cell_eqb a4 b4.

(** The order of the group keys.  Text is ordered as Python orders [str];
    the place of a cell that is not text among the others is a choice of
    the model. *)
Definition cell_compare (a b : cell) : comparison :=
  match a, b with
  | Str s, Str t => String.compare s t
  | Str _, _ => Lt
  | _, Str _ => Gt
  | Num x, Num y =>
      match SFcompare x y with
      | Some c => c
      | None => Eq
      end
  | Num _, NA => Lt
  | NA, Num _ => Gt
  | NA, NA => Eq
  end.

Definition lex (c : comparison) (k : comparison) : comparison :=
  match c with
  | Eq => k
  | _ => c
  end.

Definition key_compare (a b : key) : comparison :=
  let '(a1, a2, a3, a4) := a in
  let '(b1, b2, b3, b4) := b in
  lex (cell_compare a1 b1)
      (lex (cell_compare a2 b2)
           (lex (cell_compare a3 b3) (cell_compare a4 b4))).

Definition key_leb (a b : key) : bool :=
  match key_compare a b with
  | Gt => false
  | _ => true
  end.

Definition group : Type := (key * list Row)%type.

(** The rows are dealt to their groups one after the other. *)
Fixpoint add_to_groups (k : key) (r : Row) (gs : list group) : list group :=
  match gs with
  | [] => [(k, [r])]
  | (k', rs) :: gs' =>
      if key_eqb k k' then (k', (rs ++ [r])%list) :: gs'
      else (k', rs) :: add_to_groups k r gs'
  end.

Definition groups_of (rs : list Row) : list group :=
  fold_left (fun gs r => add_to_groups (row_key r) r gs) rs [].

Definition group_keys : list string :=
  [COL_L1; COL_L2; "outcome_type"; "outcome_name"].

(** [long.groupby(group_keys, dropna=False)]: the groups by ascending key. *)
Definition groupby (long : DataFrame) : result (list group) :=
  match find (fun c => negb (has_col long c)) group_keys with
  | Some c => Raise (KeyError c)
  | None =>
      Ok (isort_by (fun g h => key_leb (fst g) (fst h)) (groups_of (rows long)))
  end.

(** A row of [agg] after [reset_index]. *)
Record AggRow : Type := mkAgg {
  agg_L1 : cell;
  agg_L2 : cell;
  outcome_type : cell;
  outcome_name : cell;
  n : nat;
  mean_strength : spec_float;
  mean_direction : spec_float
}.

Definition agg_key (r : AggRow) : key :=
  (agg_L1 r, agg_L2 r, outcome_type r, outcome_name r).

(** ** Prefixes of the axis keys (lines 98-101) *)

Definition HDR_PREFIX_Y := "__HDR__".
Definition ROW_PREFIX_Y := "__ROW__".
Definition HDR_PREFIX_X := "__XHDR__".
Definition COL_PREFIX_X := "__XCOL__".
Definition SEP := " || ".

(** ** Sizing and marker (lines 198-200, 235-236) *)

Definition desired_max_px : Z := 48.

(** [series.max()] of a column of counts; [None] stands for the NaN of an
    empty column. *)
Definition series_max (l : list nat) : option nat :=
  match l with
  | [] => None
  | x :: l' => Some (fold_left Nat.max l' x)
  end.

(** [max(1, m)]: the second argument is taken when it is greater than the
    first, which NaN is not. *)
Definition max_1 (m : option nat) : nat :=
  match m with
  | Some k => if (1 <? k)%nat then k else 1%nat
  | None => 1%nat
  end.

Definition max_n (agg : list AggRow) : nat := max_1 (series_max (map n agg)).

Definition sizeref (agg : list AggRow) : spec_float :=
  F64.div (F64.mul (F64.of_Z 2) (F64.of_Z (Z.of_nat (max_n agg))))
          (F64.of_Z (desired_max_px ^ 2)).

Record Marker : Type := mkMarker {
  line_width : Z;
  sizemode : string;
  marker_sizeref : spec_float;
  sizemin : Z
}.

Definition marker (agg : list AggRow) : Marker :=
  mkMarker 0 "area" (sizeref agg) 4.

(** ** Detail resolver: parsing of the keys (lines 356-361) *)

(** [_, rest = k.split(prefix, 1)] and [a, b = rest.split(" || ", 1)];
    unpacking a list that has not two elements raises [ValueError]. *)
Definition parse_key (prefix k : string) : result (string * string) :=
  match split1 prefix k with
  | [_; rest] =>
      match split1 SEP rest with
      | [a; b] => Ok (a, b)
      | _ => Raise ValueError
      end
  | _ => Raise ValueError
  end.

Definition cols_show : list string :=
  [COL_TITLE; COL_YEAR; COL_GEOG; COL_INTERV_TEXT;
   COL_INT_TEXT; COL_OUT_TEXT; COL_IMP_TEXT;
   COL_INT_STRENGTH; COL_FIN_STRENGTH; COL_IMP_STRENGTH;
   COL_INT_SIGN; COL_FIN_SIGN; COL_IMP_SIGN].

Definition PROMPT_CLICK := "Click a bubble to see the article list.".
Definition PROMPT_SELECT :=
  "Select a bubble (row Level 2 × outcome) to see details.".

Definition detail_title (o_type o_name l1 l2 : string) (count : nat) : string :=
  o_type ++ " — " ++ dquote ++ o_name ++ dquote ++ "  |  " ++ l1 ++ " → " ++ l2
         ++ "  |  " ++ str_of_nat count ++ " articles".

(** The conjunction of the four comparisons of the mask. *)
Definition mask (l1 l2 o_type o_name : string) (r : Row) : bool :=
  cell_is (get r COL_L1) l1 && cell_is (get r COL_L2) l2
  && cell_is (get r "outcome_type") o_type
  && cell_is (get r "outcome_name") o_name.

(** [long[c]] for the four columns of the mask, in the order in which the
    mask reads them. *)
Definition check_columns (long : DataFrame) : result unit :=
  match find (fun c => negb (has_col long c)) group_keys with
  | Some c => Raise (KeyError c)
  | None => Ok tt
  end.

(** [clickData] is [None] or carries the [x] and [y] of the first point. *)
Definition show_details (long : DataFrame) (clickData : option (string * string))
  : result (list Row * string) :=
  match clickData with
  | None => Ok ([], PROMPT_CLICK)
  | Some (x_key, y_key) =>
      if negb (startswith x_key COL_PREFIX_X && startswith y_key ROW_PREFIX_Y)
      then Ok ([], PROMPT_SELECT)
      else
        '(o_type, o_name) <- parse_key COL_PREFIX_X x_key ;;
        '(l1, l2) <- parse_key ROW_PREFIX_Y y_key ;;
        _ <- check_columns long ;;
        let sub := filter (mask l1 l2 o_type o_name) (rows long) in
        let sub := fold_left
                     (fun d c => if has_col d c then d else assign d c (fun _ => NA))
                     cols_show (mkDF (columns long) sub) in
        let title := detail_title o_type o_name l1 l2 (List.length (rows sub)) in
        Ok (map (reindex cols_show) (rows sub), title)
  end.

(** ** The click state (lines 346-350)

    Dash hands the callback the click state as the browser sent it, a JSON
    value decoded by Python: [None], a truth value, a number, a text, a
    list or a dict with texts as keys.  The dict of a click on the figure
    has a key "points" with the list of the points under the pointer, each
    one a dict with its "x" and "y". *)
#[local] Unset Elimination Schemes.


#[local] Set Elimination Schemes.







(** ** The script, over the library functions it calls

    Three functions of pandas and Python are parameters of the model:
    the mean of a group (which skips missing values), [str] of a value
    that is not text, and [sort_values], whose default algorithm is not
    stable, so that only its contract is known: the result is a
    rearrangement of the rows in ascending order of the key. *)

Section Script.

Variable group_mean : list cell -> spec_float.
Variable py_repr : cell -> string.
Variable sort_values : (AggRow -> Z) -> list AggRow -> list AggRow.

(** [str(v)] and [series.astype(str)] at one cell. *)
Definition py_str (v : cell) : string :=
  match v with
  | Str s => s
  | _ => py_repr v
  end.

(** The row of [agg] for one group: its key, its size and its means. *)
Definition agg_row_of (g : group) : AggRow :=
  let '(k1, k2, k3, k4, rs) := g in
  mkAgg k1 k2 k3 k4 (List.length rs)
        (group_mean (map (fun r => get r "strength") rs))
        (group_mean (map (fun r => get r "sign") rs)).

Definition aggregate (long : DataFrame) : result (list AggRow) :=
  gs <- groupby long ;;
  Ok (map agg_row_of gs).

(** Columns added to [agg] (lines 137-138, 147, 167, 189-190). *)
Definition strength_label (r : AggRow) : string :=
  map_strength_label (mean_strength r).

Definition direction_label (r : AggRow) : option string :=
  map_direction_label (mean_direction r).

Definition y_key (r : AggRow) : string :=
  ROW_PREFIX_Y ++ py_str (agg_L1 r) ++ SEP ++ py_str (agg_L2 r).

(** [outcome_type] is text in every row, see [aggregate]. *)
Definition x_key (r : AggRow) : string :=
  COL_PREFIX_X ++ py_str (outcome_type r) ++ SEP ++ py_str (outcome_name r).

Definition Intervention_label (r : AggRow) : string :=
  py_str (agg_L1 r) ++ " → " ++ py_str (agg_L2 r).

Definition Outcome_label (r : AggRow) : string := py_str (outcome_name r).

(** Lines 116-118. *)
Definition l2_num_prefix (s : cell) : Z :=
  match re_match_prefix (py_str s) with
  | Some ds => int_of_digits ds
  | None => 9999%Z
  end.

(** *** Y axis (lines 143-159) *)

Definition is_surveillance (l : cell) : bool :=
  startswith (lower (py_str l)) "surveillance".

(** Line 143. *)
Definition first_seen_l1 (agg : list AggRow) : list cell :=
  unique cell_eqb (filter (fun c => negb (isna c)) (map agg_L1 agg)).

(** Lines 144-145. *)
Definition unique_l1 (agg : list AggRow) : list cell :=
  (filter is_surveillance (first_seen_l1 agg)
   ++ filter (fun l => negb (is_surveillance l)) (first_seen_l1 agg))%list.

(** Line 156: the rows of one group in the order of the axis. *)
Definition sorted_group (agg : list AggRow) (l1 : cell) : list AggRow :=
  sort_values (fun r => l2_num_prefix (agg_L2 r))
              (filter (fun r => cell_eqb (agg_L1 r) l1) agg).

Definition y_header_keys (agg : list AggRow) : list string :=
  map (fun l1 => HDR_PREFIX_Y ++ py_str l1) (unique_l1 agg).

Definition order_y (agg : list AggRow) : list string :=
  flat_map (fun l1 => (HDR_PREFIX_Y ++ py_str l1) :: map y_key (sorted_group agg l1))
           (unique_l1 agg).

Definition order_y_rev (agg : list AggRow) : list string := rev (order_y agg).

(** *** X axis (lines 169-184) *)

Definition tiers : list string := [INTERMEDIATE; FINAL; IMPACT].

Definition subnames (agg : list AggRow) (t : string) : list string :=
  unique String.eqb
    (isort_by String.leb
       (map (fun r => py_str (outcome_name r))
            (filter (fun r => cell_is (outcome_type r) t) agg))).

Definition x_items_by_type (agg : list AggRow) (t : string) : list string :=
  map (fun name => COL_PREFIX_X ++ t ++ SEP ++ name) (subnames agg t).

Definition x_header_keys : list string :=
  map (fun t => HDR_PREFIX_X ++ t) tiers.

Definition order_x (agg : list AggRow) : list string :=
  flat_map (fun t => (HDR_PREFIX_X ++ t) :: x_items_by_type agg t) tiers.

(** *** The tables the server keeps *)

Record Globals : Type := mkGlobals {
  long : DataFrame;
  agg : list AggRow
}.

Definition build (raw : DataFrame) : result Globals :=
  let df := clean_columns raw in
  l <- long_of df ;;
  a <- aggregate l ;;
  Ok (mkGlobals l a).

End Script.

(** ** Instances of the parameters, for running the model *)

(** A sort that meets the contract of [sort_values]. *)
Definition stable_sort_values (k : AggRow -> Z) (l : list AggRow) : list AggRow :=
  isort_by (fun a b => (k a <=? k b)%Z) l.

(** The mean in one pass from the left; pandas sums with compensation, so
    the last bit may differ. *)
Definition naive_mean (l : list cell) : spec_float :=
  let xs := flat_map (fun c => match c with
                               | Num x => if F64.is_nan x then [] else [x]
                               | _ => []
                               end) l in
  match xs with
  | [] => S754_nan
  | _ => F64.div (fold_left F64.add xs (F64.of_Z 0))
                 (F64.of_Z (Z.of_nat (List.length xs)))
  end.

(** [str] of a missing value.  The key cells of the example tables are
    all text, for which [py_repr] is not called. *)
Definition no_repr (c : cell) : string := "nan".

(** Example inputs. *)
Definition f_0_75 : spec_float := Eval vm_compute in F64.of_ratio 3 4.
Definition f_m0_75 : spec_float := Eval vm_compute in SFopp (F64.of_ratio 3 4).
Definition f_0 : spec_float := Eval vm_compute in F64.of_Z 0.
Definition f_2 : spec_float := Eval vm_compute in F64.of_Z 2.
Definition f_2_5 : spec_float := Eval vm_compute in F64.of_ratio 5 2.
Definition f_3 : spec_float := Eval vm_compute in F64.of_Z 3.

(** How two comparisons that are not [Gt] compose. *)
Definition glue (c1 c2 : comparison) : comparison :=
  match c1, c2 with
  | Eq, Eq => Eq
  | _, _ => Lt
  end.

(** ** Notions used in the statements and proofs *)

(** The rows of the group of key [k], none when there is no such group. *)
Fixpoint group_rows (k : key) (gs : list group) : list Row :=
  match gs with
  | [] => []
  | (k', rs) :: gs' => if key_eqb k k' then rs else group_rows k gs'
  end.

Definition rows_with (k : key) (rs : list Row) : list Row :=
  filter (fun r => key_eqb (row_key r) k) rs.

(** Every group has its own key and at least one row. *)
Definition well_grouped (gs : list group) : Prop :=
  NoDup (map fst gs) /\ forall k rs, In (k, rs) gs -> rs <> [].

(** The table of the example of the specification: three articles on one
    final outcome, with strengths 3, 3, 2.4 and signs 1, 1, 0.5, and two
    more rows; the impact columns are absent. *)
Definition example_columns : list string :=
  [COL_L1; COL_L2; COL_TITLE; COL_INT_OUT; COL_INT_STRENGTH; COL_INT_SIGN;
   COL_FIN_OUT; COL_FIN_STRENGTH; COL_FIN_SIGN].

Definition example_row (l1 l2 title : string)
           (i_out i_strength i_sign f_out f_strength f_sign : cell) : Row :=
  combine example_columns
          [Str l1; Str l2; Str title; i_out; i_strength; i_sign;
           f_out; f_strength; f_sign].

Definition example_df : DataFrame :=
  mkDF example_columns
    [ example_row " Surveillance systems" "2. Data sharing" "A" NA NA NA
                  (Str "Reduced AMR incidence") (Num f_3) (Num c_1_0);
      example_row "Surveillance systems" "2. Data sharing " "B"
                  (Str "Better reporting") (Num f_2) (Num c_1_0)
                  (Str "Reduced AMR incidence") (Num f_3) (Num c_1_0);
      example_row "Surveillance systems" "2. Data sharing" "C" NA NA NA
                  (Str "Reduced AMR incidence") (Num c_2_4) (Num c_0_5);
      example_row "Governance" "10. Workforce" "D"
                  (Str "Better reporting") (Num f_2) (Num f_0) NA NA NA;
      example_row "Governance" "2. Training" "E"
                  (Str "Better reporting") (Num f_2) (Num f_0) NA NA NA ].

Definition example_globals : Globals :=
  match build naive_mean example_df with
  | Ok g => g
  | Raise _ => mkGlobals (mkDF [] []) []
  end.

Definition example_agg_row : AggRow :=
  mkAgg (Str "Surveillance systems") (Str "2. Data sharing")
        (Str FINAL) (Str "Reduced AMR incidence") 3
        (naive_mean [Num f_3; Num f_3; Num c_2_4])
        (naive_mean [Num c_1_0; Num c_1_0; Num c_0_5]).


(** A table whose level 1 ends with a blank and two bars. *)
Definition overlap_df : DataFrame :=
  mkDF example_columns
    [ example_row "Labs ||" "1. Testing" "F"
                  (Str "Better reporting") (Num f_2) (Num c_1_0) NA NA NA ].

Definition overlap_globals : Globals :=
  match build naive_mean overlap_df with
  | Ok g => g
  | Raise _ => mkGlobals (mkDF [] []) []
  end.

Definition overlap_agg_row : AggRow :=
  mkAgg (Str "Labs ||") (Str "1. Testing") (Str INTERMEDIATE)
        (Str "Better reporting") 1
        (naive_mean [Num f_2]) (naive_mean [Num c_1_0]).

(** Rows of one level-1 group, for the order of the level-2 labels. *)
Definition governance (l2 : string) : AggRow :=
  mkAgg (Str "Governance") (Str l2) (Str INTERMEDIATE)
        (Str "Better reporting") 1 f_2 f_0.


Definition sentinel_agg : list AggRow :=
  [governance "10000. Scale-up"; governance "Other"].

(** The contract of [sort_values]. *)
Definition sorts (sort : (AggRow -> Z) -> list AggRow -> list AggRow) : Prop :=
  forall (k : AggRow -> Z) (l : list AggRow),
    Permutation (sort k l) l
    /\ StronglySorted (fun a b => (k a <= k b)%Z) (sort k l).

(** ** Further parts of the script *)

(** *** Labels of the ticks (lines 103-114, 154-159, 175-184) *)

(** U+2003, as its three bytes. *)
Definition em_space : string :=
  String (ascii_of_nat 226) (String (ascii_of_nat 128) (String (ascii_of_nat 131) "")).

Definition INDENT : string := em_space ++ em_space.
Definition BULLET : string := "•".

(** The bound [k] of a slice [l[:k]] or [l[k:]] as a position in [l]: a
    negative bound counts from the end, and every bound is clipped to the
    list. *)
Definition slice_index (len : nat) (k : Z) : nat :=
  if (k <? 0)%Z then Z.to_nat (Z.of_nat len + k) else Z.to_nat k.

Definition slice_to {A : Type} (l : list A) (k : Z) : list A :=
  firstn (slice_index (List.length l) k) l.

Definition slice_from {A : Type} (l : list A) (k : Z) : list A :=
  skipn (slice_index (List.length l) k) l.

(** [s.replace(old, new)] for a non-empty [old]: the occurrences of [old]
    are taken from the left and do not overlap.  [skip] counts the
    characters of an occurrence that are still to be passed. *)
Fixpoint replace_from (skip : nat) (old new s : string) : string :=
  match s with
  | EmptyString => EmptyString
  | String c s' =>
      match skip with
      | S k => replace_from k old new s'
      | O =>
          if String.prefix old s
          then new ++ replace_from (String.length old - 1) old new s'
          else String c (replace_from 0 old new s')
      end
  end.

Definition replace (s old new : string) : string := replace_from 0 old new s.

Section Labels.

(** [textwrap.wrap(s, width=width)] is a parameter. *)
Variable wrap : string -> Z -> list string.
Variable py_repr : cell -> string.
Variable sort_values : (AggRow -> Z) -> list AggRow -> list AggRow.

(** The value of [lines] at the end of [wrap_lines]. *)
Definition wrapped_lines (s : cell) (width max_lines : Z) : list string :=
  let s := if isna s then EmptyString else py_str py_repr s in
  let lines := wrap s width in
  if (Z.of_nat (List.length lines) >? max_lines)%Z
  then (slice_to lines (max_lines - 1)
        ++ [String.concat " " (slice_from lines (max_lines - 1))])%list
  else lines.

Definition wrap_lines (s : cell) (width max_lines : Z) : string :=
  String.concat nl (wrapped_lines s width max_lines).

Definition make_row_label (s : cell) (width max_lines : Z) : string :=
  INDENT ++ BULLET ++ " " ++ wrap_lines s width max_lines.

Definition y_ticktext (agg : list AggRow) : list string :=
  flat_map (fun l1 =>
              " " :: map (fun r => make_row_label (agg_L2 r) 40 3)
                         (sorted_group py_repr sort_values agg l1))
           (unique_l1 py_repr agg).

Definition y_ticktext_rev (agg : list AggRow) : list string :=
  rev (y_ticktext agg).

Definition x_ticktext (agg : list AggRow) : list string :=
  flat_map (fun t =>
              EmptyString :: map (fun name => make_row_label (Str name) 24 3)
                                 (subnames py_repr agg t))
           tiers.

(** The text of the title of a level-1 group (lines 268-273). *)
Definition l1_text (hdr_key : string) : string :=
  replace hdr_key HDR_PREFIX_Y EmptyString.

Definition row_title (hdr_key : string) : string :=
  "<b>" ++ wrap_lines (Str (l1_text hdr_key)) 38 3 ++ "</b>".

(** *** Size of the figure (lines 195-197) *)

Definition n_rows (agg : list AggRow) : Z :=
  Z.max 1 (Z.of_nat (List.length (order_y py_repr sort_values agg))).

Definition fig_height (agg : list AggRow) : Z :=
  Z.min 1400 (120 + 24 * n_rows agg).

End Labels.

Definition fig_width : Z := 1650.

(** *** Colours of the directions (lines 206-213) *)

Definition DIR_ORDER : list string :=
  ["positive"; "mostly positive"; "inconclusive/mixed"; "mostly negative";
   "negative"].

Definition DIR_COLORS : list (string * string) :=
  [("positive", "#1b9e77");
   ("mostly positive", "#66c2a4");
   ("inconclusive/mixed", "#7f7f7f");
   ("mostly negative", "#fc8d62");
   ("negative", "#d95f02")].

Fixpoint dict_get (d : list (string * string)) (k : string) : option string :=
  match d with
  | [] => None
  | (k', v) :: d' => if String.eqb k' k then Some v else dict_get d' k
  end.

(** *** Titles of the column blocks (lines 279-295) *)

(** [l.index(x)]; [None] stands for [ValueError]. *)
Fixpoint list_index (x : string) (l : list string) : option nat :=
  match l with
  | [] => None
  | y :: l' =>
      if String.eqb y x then Some O
      else match list_index x l' with
           | Some i => Some (S i)
           | None => None
           end
  end.

(** What one turn of the loop does for a tier. *)
Inductive block_title : Type :=
| NoTitle
| TitleAt (first_idx last_idx : nat) (center_frac : spec_float)
| IndexFails
| DivisionByZero.

Definition block_title_of (py_repr : cell -> string) (agg : list AggRow)
           (t : string) : block_title :=
  let order := order_x py_repr agg in
  let N := (Z.of_nat (List.length order) - 1)%Z in
  let items := x_items_by_type py_repr agg t in
  match items with
  | [] => NoTitle
  | first :: _ =>
      match list_index first order, list_index (last items first) order with
      | Some first_idx, Some last_idx =>
          if (N =? 0)%Z then DivisionByZero
          else TitleAt first_idx last_idx
                 (F64.div (F64.div (F64.of_Z (Z.of_nat first_idx + Z.of_nat last_idx))
                                   (F64.of_Z 2))
                          (F64.of_Z N))
      | _, _ => IndexFails
      end
  end.

(** ** Size of a bubble on the screen

    The exact value of a finite binary64 number, and a count as a
    rational. *)
Definition to_Q (x : spec_float) : Q :=
  match x with
  | S754_finite s m e =>
      ((if s then -1 else 1) * inject_Z (Zpos m) * Qpower 2 e)%Q
  | _ => 0%Q
  end.

Definition Qnat (k : nat) : Q := inject_Z (Z.of_nat k).

(** The script hands the marker to plotly, which is not part of the
    repository.  For a trace whose marker has an array of sizes, plotly.js
    draws the point of size [v] with the radius, in pixels,
    [max (sqrt (v / 2 / sizeref)) sizemin] when the size mode is "area".
    [radius_sq] is the square of that radius for a positive size and a
    positive size reference, in exact arithmetic on the value of the
    binary64 size reference: the areas of two bubbles are to each other as
    their [radius_sq].  The rounding of the renderer's own arithmetic is
    not part of the model. *)
Definition radius_sq (mk : Marker) (v : nat) : Q :=
  Qmax (Qnat v / 2 / to_Q (marker_sizeref mk)) (inject_Z (sizemin mk) ^ 2).


(** A table with one article under one label and 200 under another. *)
Definition crowded_df : DataFrame :=
  mkDF example_columns
    (example_row "Governance" "1. Law" "A"
                 (Str "Better reporting") (Num f_2) (Num f_0) NA NA NA
     :: repeat (example_row "Governance" "2. Training" "B"
                            (Str "Better reporting") (Num f_2) (Num f_0)
                            NA NA NA)
               200).

Definition crowded_globals : Globals :=
  match build naive_mean crowded_df with
  | Ok g => g
  | Raise _ => mkGlobals (mkDF [] []) []
  end.

(** *** Notions used in the statements that follow *)

(** The columns without which the script stops. *)
Definition required_columns : list string :=
  [COL_L1; COL_L2; COL_INT_OUT; COL_INT_STRENGTH; COL_INT_SIGN;
   COL_FIN_OUT; COL_FIN_STRENGTH; COL_FIN_SIGN].

Definition cleaned_columns : list string :=
  [COL_L1; COL_L2; COL_INT_OUT; COL_FIN_OUT; COL_IMP_OUT].

(** The place of a strength label on the scale from "very low" to "high". *)
Definition strength_rank (l : string) : nat :=
  if String.eqb l "very low" then 0
  else if String.eqb l "low" then 1
  else if String.eqb l "low-moderate" then 2
  else if String.eqb l "moderate" then 3
  else if String.eqb l "high" then 4
  else 5.

(** The name of a tier with its outcome, strength and sign columns. *)
Definition tier_columns : list (string * (string * string * string)) :=
  [(INTERMEDIATE, (COL_INT_OUT, COL_INT_STRENGTH, COL_INT_SIGN));
   (FINAL, (COL_FIN_OUT, COL_FIN_STRENGTH, COL_FIN_SIGN));
   (IMPACT, (COL_IMP_OUT, COL_IMP_STRENGTH, COL_IMP_SIGN))].

Definition added_columns : list string :=
  ["outcome_type"; "outcome_name"; "strength"; "sign"].

(** The text of one ASCII character. *)
Definition single (c : ascii) : string := String c EmptyString.

(** U+00A0, the no-break space, and U+FF12, the full-width digit two. *)
Definition nbsp : string :=
  String (ascii_of_nat 194) (String (ascii_of_nat 160) EmptyString).


(** A character that has all the bytes its first byte announces, one that
    is cut short, and a list of characters as [chars] gives it. *)
Definition whole (c : string) : Prop :=
  match c with
  | EmptyString => False
  | String b t => String.length t = (char_len b - 1)%nat
  end.

Definition short (c : string) : Prop :=
  match c with
  | EmptyString => False
  | String b t => (String.length t < char_len b - 1)%nat
  end.

Fixpoint chunked (l : list string) : Prop :=
  match l with
  | [] => True
  | c :: l' =>
      match l' with
      | [] => whole c \/ short c
      | _ => whole c
      end /\ chunked l'
  end.

(** The first and the last character of a text, and whether a character
    is one that [str.strip] removes. *)
Definition first_char (s : string) : option string := hd_error (chars s).

Definition last_char (s : string) : option string :=
  last (map Some (chars s)) None.

Definition blank (c : option string) : bool :=
  match c with
  | Some ch => is_space_char ch
  | None => false
  end.

(* ================================================================= *)
(** * Properties *)

(** ** The order of binary64 numbers *)

Ltac split_compare :=
  repeat match goal with
  | H : context [Z.compare ?a ?b] |- _ => destruct (Z.compare_spec a b)
  | |- context [Z.compare ?a ?b] => destruct (Z.compare_spec a b)
  | H : context [Pos.compare ?a ?b] |- _ => destruct (Pos.compare_spec a b)
  | |- context [Pos.compare ?a ?b] => destruct (Pos.compare_spec a b)
  end.

Lemma SFcompare_trans (x y z : spec_float) (c1 c2 : comparison) :
  SFcompare x y = Some c1 -> SFcompare y z = Some c2 ->
  c1 <> Gt -> c2 <> Gt -> SFcompare x z = Some (glue c1 c2).
Proof.
  destruct x as [sx|sx| |sx mx ex], y as [sy|sy| |sy my ey], z as [sz|sz| |sz mz ez];
    cbn [SFcompare]; try discriminate;
    try destruct sx; try destruct sy; try destruct sz;
    change (Pos.compare_cont Eq) with Pos.compare;
    intros H1 H2 N1 N2;
    injection H1 as <-; injection H2 as <-;
    try reflexivity; try (exfalso; congruence);
    split_compare; cbn in *; try reflexivity; try (exfalso; congruence);
    subst; try lia.
Qed.

Lemma SFltb_compare (x y : spec_float) :
  SFltb x y = true <-> SFcompare x y = Some Lt.
Proof.
  unfold SFltb. destruct (SFcompare x y) as [[ | | ]|]; split; congruence.
Qed.

Lemma SFeqb_compare (x y : spec_float) :
  SFeqb x y = true <-> SFcompare x y = Some Eq.
Proof.
  unfold SFeqb. destruct (SFcompare x y) as [[ | | ]|]; split; congruence.
Qed.

Lemma SFleb_compare (x y : spec_float) :
  SFleb x y = true <-> exists c, SFcompare x y = Some c /\ c <> Gt.
Proof.
  unfold SFleb. destruct (SFcompare x y) as [[ | | ]|]; split;
    try congruence; try (intros [c [H N]]; congruence);
    intros _; eexists; split; try reflexivity; congruence.
Qed.

Lemma SFltb_leb (x y : spec_float) : SFltb x y = true -> SFleb x y = true.
Proof.
  rewrite SFltb_compare, SFleb_compare. intros H. exists Lt. split; congruence.
Qed.

Lemma SFeqb_leb (x y : spec_float) : SFeqb x y = true -> SFleb x y = true.
Proof.
  rewrite SFeqb_compare, SFleb_compare. intros H. exists Eq. split; congruence.
Qed.

Lemma SFeqb_sym (x y : spec_float) : SFeqb x y = true -> SFeqb y x = true.
Proof.
  rewrite !SFeqb_compare.
  destruct x as [sx|sx| |sx mx ex], y as [sy|sy| |sy my ey];
    cbn [SFcompare]; try discriminate;
    try destruct sx; try destruct sy; try discriminate; try reflexivity;
    change (Pos.compare_cont Eq) with Pos.compare;
    intros H; injection H as H; split_compare; cbn in *;
    try discriminate; try reflexivity; subst; lia.
Qed.

Lemma SFleb_trans (x y z : spec_float) :
  SFleb x y = true -> SFleb y z = true -> SFleb x z = true.
Proof.
  rewrite !SFleb_compare. intros [c1 [H1 N1]] [c2 [H2 N2]].
  exists (glue c1 c2). split.
  - now apply SFcompare_trans with y.
  - destruct c1, c2; cbn; congruence.
Qed.

Lemma SFltb_leb_trans (x y z : spec_float) :
  SFltb x y = true -> SFleb y z = true -> SFltb x z = true.
Proof.
  rewrite !SFltb_compare, SFleb_compare. intros H1 [c2 [H2 N2]].
  assert (H := SFcompare_trans x y z Lt c2 H1 H2).
  rewrite H; [destruct c2; reflexivity | congruence | assumption].
Qed.

Lemma SFleb_ltb_trans (x y z : spec_float) :
  SFleb x y = true -> SFltb y z = true -> SFltb x z = true.
Proof.
  rewrite !SFltb_compare, SFleb_compare. intros [c1 [H1 N1]] H2.
  assert (H := SFcompare_trans x y z c1 Lt H1 H2).
  rewrite H; [destruct c1; reflexivity | assumption | congruence].
Qed.

(** Two bounds on the same number that no number satisfies: the lower
    bound is compared with the upper one by evaluation. *)
Ltac bounds_clash :=
  match goal with
  | L : SFleb ?a ?x = true, U : SFleb ?x ?b = true |- _ =>
      let H := fresh in
      assert (H := SFleb_trans a x b L U); vm_compute in H; discriminate H
  | L : SFltb ?a ?x = true, U : SFleb ?x ?b = true |- _ =>
      let H := fresh in
      assert (H := SFltb_leb_trans a x b L U); vm_compute in H; discriminate H
  | L : SFleb ?a ?x = true, U : SFltb ?x ?b = true |- _ =>
      let H := fresh in
      assert (H := SFleb_ltb_trans a x b L U); vm_compute in H; discriminate H
  | L : SFltb ?a ?x = true, U : SFltb ?x ?b = true |- _ =>
      let H := fresh in
      assert (H := SFltb_leb_trans a x b L (SFltb_leb x b U));
      vm_compute in H; discriminate H
  end.

(** An equality test that succeeded bounds the number on both sides. *)
Ltac eq_bounds :=
  repeat match goal with
  | E : SFeqb ?x ?c = true |- _ =>
      let L := fresh "L" in let U := fresh "U" in
      assert (U := SFeqb_leb x c E);
      assert (L := SFeqb_leb c x (SFeqb_sym x c E));
      clear E
  end.

Ltac label_case :=
  unfold F64.eq, F64.lt, F64.le, F64.ge in *;
  repeat match goal with
  | |- context [SFeqb ?a ?b] =>
      let E := fresh "E" in
      destruct (SFeqb a b) eqn:E; [try (exfalso; eq_bounds; bounds_clash) | ]
  | |- context [SFltb ?a ?b] =>
      let E := fresh "E" in
      destruct (SFltb a b) eqn:E; [try (exfalso; eq_bounds; bounds_clash) | ]
  | |- context [SFleb ?a ?b] =>
      let E := fresh "E" in
      destruct (SFleb a b) eqn:E; [try (exfalso; eq_bounds; bounds_clash) | ]
  end;
  cbn [andb]; try reflexivity; try congruence.

Lemma compared_not_nan (x : spec_float) :
  (exists c, SFeqb x c = true \/ SFltb x c = true \/ SFleb x c = true
             \/ SFltb c x = true \/ SFleb c x = true) ->
  isna_float x = false.
Proof.
  intros [c H]. destruct x; try reflexivity.
  unfold SFeqb, SFltb, SFleb in H.
  destruct c; cbn in H; intuition discriminate.
Qed.

(** ** Strength label *)

(** C4.  [map_strength_label] returns one of six labels for every number:
    "N/A" for a missing one, "high" from 2.6, "moderate" on [2.4, 2.6),
    "low-moderate" on [1.5, 2.4), "low" on [1.0, 1.5) and "very low" below
    1.0; the bounds 2.6, 2.4, 1.5 and 1.0 themselves get "high",
    "moderate", "low-moderate" and "low". *)
Theorem map_strength_label_spec (x : spec_float) :
  In (map_strength_label x)
     ["N/A"; "high"; "moderate"; "low-moderate"; "low"; "very low"]
  /\ (isna_float x = true -> map_strength_label x = "N/A")
  /\ ((x >= c_2_6)%f64 = true -> map_strength_label x = "high")
  /\ ((c_2_4 <= x)%f64 = true -> (x < c_2_6)%f64 = true ->
      map_strength_label x = "moderate")
  /\ ((c_1_5 <= x)%f64 = true -> (x < c_2_4)%f64 = true ->
      map_strength_label x = "low-moderate")
  /\ ((c_1_0 <= x)%f64 = true -> (x < c_1_5)%f64 = true ->
      map_strength_label x = "low")
  /\ ((x < c_1_0)%f64 = true -> map_strength_label x = "very low")
  /\ map_strength_label c_2_6 = "high"
  /\ map_strength_label c_2_4 = "moderate"
  /\ map_strength_label c_1_5 = "low-moderate"
  /\ map_strength_label c_1_0 = "low".
Proof.
  repeat apply conj; try reflexivity.
  - unfold map_strength_label.
    destruct (isna_float x); [cbn; tauto|].
    destruct (x >= c_2_6)%f64; [cbn; tauto|].
    destruct (x >= c_2_4)%f64; [cbn; tauto|].
    destruct (x >= c_1_5)%f64; [cbn; tauto|].
    destruct (x >= c_1_0)%f64; cbn; tauto.
  - intros H. unfold map_strength_label. now rewrite H.
  - intros H. unfold map_strength_label.
    rewrite compared_not_nan by (exists c_2_6; unfold F64.ge in H; tauto).
    now rewrite H.
  - intros L U. unfold map_strength_label.
    rewrite compared_not_nan by (exists c_2_6; unfold F64.lt in U; tauto).
    label_case.
  - intros L U. unfold map_strength_label.
    rewrite compared_not_nan by (exists c_2_4; unfold F64.lt in U; tauto).
    label_case.
  - intros L U. unfold map_strength_label.
    rewrite compared_not_nan by (exists c_1_5; unfold F64.lt in U; tauto).
    label_case.
  - intros U. unfold map_strength_label.
    rewrite compared_not_nan by (exists c_1_0; unfold F64.lt in U; tauto).
    label_case.
Qed.

Lemma map_strength_label_witness :
  isna_float S754_nan = true /\ map_strength_label S754_nan = "N/A"
  /\ (f_3 >= c_2_6)%f64 = true /\ map_strength_label f_3 = "high"
  /\ (c_2_4 <= f_2_5)%f64 = true /\ (f_2_5 < c_2_6)%f64 = true
  /\ map_strength_label f_2_5 = "moderate"
  /\ (c_1_5 <= f_2)%f64 = true /\ (f_2 < c_2_4)%f64 = true
  /\ map_strength_label f_2 = "low-moderate"
  /\ (f_0_75 < c_1_0)%f64 = true /\ map_strength_label f_0_75 = "very low".
Proof.
  split; [reflexivity|].
  split; [apply (map_strength_label_spec S754_nan); reflexivity|].
  split; [reflexivity|].
  split; [apply (map_strength_label_spec f_3); reflexivity|].
  split; [reflexivity|]. split; [reflexivity|].
  split; [apply (map_strength_label_spec f_2_5); reflexivity|].
  split; [reflexivity|]. split; [reflexivity|].
  split; [apply (map_strength_label_spec f_2); reflexivity|].
  split; [reflexivity|].
  apply (map_strength_label_spec f_0_75); reflexivity.
Defined.

(** ** Direction label *)

(** C3.  [map_direction_label] gives "N/A" for a missing number,
    "positive" at 1, "mostly positive" on (0.5, 1), "inconclusive/mixed"
    on (-0.5, 0.5], "mostly negative" on (-1, -0.5], "negative" at -1, and
    no label ([None]) for a number below -1 or above 1. *)
Theorem map_direction_label_spec (x : spec_float) :
  (isna_float x = true -> map_direction_label x = Some "N/A")
  /\ ((x == c_1_0)%f64 = true -> map_direction_label x = Some "positive")
  /\ ((c_0_5 < x)%f64 = true -> (x < c_1_0)%f64 = true ->
      map_direction_label x = Some "mostly positive")
  /\ ((c_m0_5 < x)%f64 = true -> (x <= c_0_5)%f64 = true ->
      map_direction_label x = Some "inconclusive/mixed")
  /\ ((c_m1_0 < x)%f64 = true -> (x <= c_m0_5)%f64 = true ->
      map_direction_label x = Some "mostly negative")
  /\ ((x == c_m1_0)%f64 = true -> map_direction_label x = Some "negative")
  /\ ((x < c_m1_0)%f64 = true \/ (c_1_0 < x)%f64 = true ->
      map_direction_label x = None).
Proof.
  repeat apply conj.
  - intros H. unfold map_direction_label. now rewrite H.
  - intros H. unfold map_direction_label.
    rewrite compared_not_nan by (exists c_1_0; unfold F64.eq in H; tauto).
    now rewrite H.
  - intros L U. unfold map_direction_label.
    rewrite compared_not_nan by (exists c_1_0; unfold F64.lt in U; tauto).
    label_case.
  - intros L U. unfold map_direction_label.
    rewrite compared_not_nan by (exists c_0_5; unfold F64.le in U; tauto).
    label_case.
  - intros L U. unfold map_direction_label.
    rewrite compared_not_nan by (exists c_m0_5; unfold F64.le in U; tauto).
    label_case.
  - intros H. unfold map_direction_label.
    rewrite compared_not_nan by (exists c_m1_0; unfold F64.eq in H; tauto).
    label_case.
  - intros [U | L]; unfold map_direction_label.
    + rewrite compared_not_nan by (exists c_m1_0; unfold F64.lt in U; tauto).
      label_case.
    + rewrite compared_not_nan by (exists c_1_0; unfold F64.lt in L; tauto).
      label_case.
Qed.

Lemma map_direction_label_witness :
  (isna_float S754_nan = true /\ map_direction_label S754_nan = Some "N/A")
  /\ ((c_1_0 == c_1_0)%f64 = true /\ map_direction_label c_1_0 = Some "positive")
  /\ ((c_0_5 < f_0_75)%f64 = true /\ (f_0_75 < c_1_0)%f64 = true
      /\ map_direction_label f_0_75 = Some "mostly positive")
  /\ ((c_m0_5 < f_0)%f64 = true /\ (f_0 <= c_0_5)%f64 = true
      /\ map_direction_label f_0 = Some "inconclusive/mixed")
  /\ ((c_m1_0 < f_m0_75)%f64 = true /\ (f_m0_75 <= c_m0_5)%f64 = true
      /\ map_direction_label f_m0_75 = Some "mostly negative")
  /\ ((c_m1_0 == c_m1_0)%f64 = true
      /\ map_direction_label c_m1_0 = Some "negative")
  /\ ((c_1_0 < f_2)%f64 = true /\ map_direction_label f_2 = None).
Proof.
  split; [split; [reflexivity|];
          apply (map_direction_label_spec S754_nan); reflexivity|].
  split; [split; [reflexivity|];
          apply (map_direction_label_spec c_1_0); reflexivity|].
  split; [split; [reflexivity|]; split; [reflexivity|];
          apply (map_direction_label_spec f_0_75); reflexivity|].
  split; [split; [reflexivity|]; split; [reflexivity|];
          apply (map_direction_label_spec f_0); reflexivity|].
  split; [split; [reflexivity|]; split; [reflexivity|];
          apply (map_direction_label_spec f_m0_75); reflexivity|].
  split; [split; [reflexivity|];
          apply (map_direction_label_spec c_m1_0); reflexivity|].
  split; [reflexivity|].
  apply (map_direction_label_spec f_2). right. reflexivity.
Defined.

(** ** Strings: prefixes and cuts *)

Lemma prefix_append (p s : string) : String.prefix p (p ++ s) = true.
Proof.
  induction p as [|c p IH]; cbn.
  - now destruct s.
  - destruct (ascii_dec c c); [assumption | congruence].
Qed.

Lemma drop_append (p s : string) : drop (String.length p) (p ++ s) = s.
Proof.
  induction p as [|c p IH]; cbn; [reflexivity | assumption].
Qed.

Lemma append_assoc (a b c : string) : (a ++ b) ++ c = a ++ b ++ c.
Proof.
  induction a as [|x a IH]; cbn; [reflexivity | now rewrite IH].
Qed.

Lemma split1_unfold (sep s : string) :
  split1 sep s =
  if String.prefix sep s then [EmptyString; drop (String.length sep) s]
  else match s with
       | EmptyString => [s]
       | String c s' =>
           match split1 sep s' with
           | [a; b] => [String c a; b]
           | _ => [s]
           end
       end.
Proof. destruct s; reflexivity. Qed.

(** A key that begins with the prefix is cut right after it. *)
Lemma split1_prefix (p s : string) : split1 p (p ++ s) = [EmptyString; s].
Proof.
  rewrite split1_unfold, prefix_append, drop_append. reflexivity.
Qed.

(** The cut is at an occurrence of the separator. *)
Lemma split1_sound (sep s a b : string) :
  split1 sep s = [a; b] -> s = a ++ sep ++ b.
Proof.
  revert a b. induction s as [|c s IH]; intros a b; rewrite split1_unfold.
  - destruct (String.prefix sep EmptyString) eqn:P; [|discriminate].
    destruct sep; [|discriminate]. cbn. intros H. now injection H as <- <-.
  - destruct (String.prefix sep (String c s)) eqn:P.
    + intros H. injection H as <- <-. cbn [append].
      apply prefix_correct in P.
      rewrite <- P at 1.
      clear. revert c s. induction sep as [|d sep IH]; intros c s.
      * reflexivity.
      * cbn [String.length substring drop append]. f_equal.
        destruct s as [|c' s].
        -- destruct sep; reflexivity.
        -- apply IH.
    + destruct (split1 sep s) as [|a' [|b' [|? ?]]] eqn:E; try discriminate.
      intros H. injection H as <- <-. cbn. f_equal. now apply IH.
Qed.

(** Wherever the separator occurs, the cut succeeds. *)
Lemma split1_complete (sep s : string) :
  contains s sep = true -> exists a b, split1 sep s = [a; b].
Proof.
  induction s as [|c s IH]; rewrite split1_unfold; cbn [contains].
  - rewrite orb_false_r. intros ->. eauto.
  - destruct (String.prefix sep (String c s)); [eauto|].
    cbn [orb]. intros H. destruct (IH H) as [a [b ->]]. eauto.
Qed.

Lemma contains_append (a sep b : string) : contains (a ++ sep ++ b) sep = true.
Proof.
  induction a as [|c a IH]; cbn [append].
  - destruct (sep ++ b) eqn:E; cbn [contains].
    + rewrite <- E, prefix_append. reflexivity.
    + rewrite <- E, prefix_append. reflexivity.
  - cbn [contains]. rewrite IH. apply orb_true_r.
Qed.

(** The separator " || " overlaps itself by one blank: in [a ++ " || "] it
    can begin inside [a] only when [a] ends with " ||". *)
Lemma SEP_early (a b : string) :
  a <> EmptyString ->
  String.prefix SEP (a ++ SEP ++ b) = true ->
  String.prefix SEP a = true \/ a = " ||".
Proof.
  intros Hne. unfold SEP.
  destruct a as [|c1 [|c2 [|c3 [|c4 a]]]]; [congruence| | | | ];
    cbn [append String.prefix];
    repeat match goal with
           | |- context [ascii_dec ?x ?y] => destruct (ascii_dec x y); subst
           end;
    try discriminate; try congruence; auto.
  intros _. left. now destruct a.
Qed.

Lemma split1_SEP (a b : string) :
  contains a SEP = false -> endswith a " ||" = false ->
  split1 SEP (a ++ SEP ++ b) = [a; b].
Proof.
  induction a as [|c a IH]; intros C E.
  - apply (split1_prefix SEP b).
  - cbn [contains] in C. apply orb_false_iff in C as [C1 C2].
    cbn [endswith] in E. apply orb_false_iff in E as [E1 E2].
    rewrite split1_unfold.
    destruct (String.prefix SEP (String c a ++ SEP ++ b)) eqn:P.
    + apply SEP_early in P; [|discriminate].
      destruct P as [P | P]; [congruence|].
      rewrite P in E1. discriminate.
    + cbn [append]. rewrite (IH C2 E2). reflexivity.
Qed.

(** ** The keys of the axes and their parsing *)

Lemma parse_key_append (p rest : string) :
  parse_key p (p ++ rest) =
  match split1 SEP rest with
  | [a; b] => Ok (a, b)
  | _ => Raise ValueError
  end.
Proof. unfold parse_key. now rewrite split1_prefix. Qed.

(** A key built on the separator is always parsed, into two parts that
    rebuild it. *)
Lemma parse_key_built (p a b : string) :
  exists a' b', parse_key p (p ++ a ++ SEP ++ b) = Ok (a', b')
                /\ a' ++ SEP ++ b' = a ++ SEP ++ b.
Proof.
  rewrite parse_key_append.
  destruct (split1_complete SEP _ (contains_append a SEP b)) as [a' [b' E]].
  exists a', b'. rewrite E. split; [reflexivity|].
  symmetry. now apply split1_sound.
Qed.

Lemma parse_key_roundtrip (p a b : string) :
  contains a SEP = false -> endswith a " ||" = false ->
  parse_key p (p ++ a ++ SEP ++ b) = Ok (a, b).
Proof.
  intros C E. rewrite parse_key_append, split1_SEP by assumption. reflexivity.
Qed.

(** ** Rows and columns *)

Lemma mem_In (c : string) (cs : list string) : mem c cs = true <-> In c cs.
Proof.
  unfold mem. rewrite existsb_exists. split.
  - intros [x [H E]]. apply String.eqb_eq in E. now subst.
  - intros H. exists c. split; [assumption | apply String.eqb_refl].
Qed.

Lemma mem_app (c : string) (l1 l2 : list string) :
  mem c (l1 ++ l2)%list = mem c l1 || mem c l2.
Proof. apply existsb_app. Qed.

Lemma find_none_all (f : string -> bool) (cs : list string) :
  find (fun c => negb (f c)) cs = None -> forall c, In c cs -> f c = true.
Proof.
  intros H c Hc. apply (find_none _ _ H) in Hc.
  now apply negb_false_iff in Hc.
Qed.

Lemma all_find_none (f : string -> bool) (cs : list string) :
  (forall c, In c cs -> f c = true) -> find (fun c => negb (f c)) cs = None.
Proof.
  induction cs as [|c cs IH]; intros H; [reflexivity|].
  cbn. rewrite (H c) by now left. cbn. apply IH. intros; apply H; now right.
Qed.

Lemma get_reindex (cols : list string) (r : Row) (c : string) :
  mem c cols = true -> get (reindex cols r) c = get r c.
Proof.
  induction cols as [|c0 cols IH]; [discriminate|].
  cbn. destruct (String.eqb_spec c0 c) as [->|N].
  - rewrite String.eqb_refl. reflexivity.
  - rewrite (proj2 (String.eqb_neq c c0)) by congruence. exact IH.
Qed.

Lemma get_snoc_absent (r : Row) (c : string) (v : cell) :
  mem c (map fst r) = false -> get (r ++ [(c, v)])%list c = v.
Proof.
  induction r as [|[k w] r IH]; cbn.
  - now rewrite String.eqb_refl.
  - intros H. apply orb_false_iff in H as [H1 H2].
    rewrite String.eqb_sym, H1. now apply IH.
Qed.

Lemma get_snoc_other (r : Row) (c c' : string) (v : cell) :
  c <> c' -> get (r ++ [(c, v)])%list c' = get r c'.
Proof.
  intros N. induction r as [|[k w] r IH]; cbn.
  - now rewrite (proj2 (String.eqb_neq c c')).
  - now rewrite IH.
Qed.

Lemma get_set_cell_same (r : Row) (c : string) (v : cell) :
  get (set_cell r c v) c = v.
Proof.
  unfold set_cell. destruct (mem c (map fst r)) eqn:M.
  - induction r as [|[k w] r IH]; [discriminate|].
    cbn in M |- *. destruct (String.eqb_spec k c) as [->|N].
    + cbn. now rewrite String.eqb_refl.
    + cbn. rewrite (proj2 (String.eqb_neq k c) N).
      apply IH. rewrite String.eqb_sym in M.
      now rewrite (proj2 (String.eqb_neq k c) N) in M.
  - now apply get_snoc_absent.
Qed.

Lemma get_set_cell_other (r : Row) (c c' : string) (v : cell) :
  c <> c' -> get (set_cell r c v) c' = get r c'.
Proof.
  intros N. unfold set_cell. destruct (mem c (map fst r)).
  - induction r as [|[k w] r IH]; [reflexivity|].
    cbn. destruct (String.eqb_spec k c) as [->|N'].
    + cbn. rewrite (proj2 (String.eqb_neq c c') N). exact IH.
    + cbn. now rewrite IH.
  - now apply get_snoc_other.
Qed.

Lemma has_col_assign (df : DataFrame) (c c' : string) (f : Row -> cell) :
  has_col (assign df c f) c' = has_col df c' || String.eqb c' c.
Proof.
  unfold assign, has_col. cbn [columns].
  destruct (mem c (columns df)) eqn:M.
  - destruct (String.eqb_spec c' c) as [->|N].
    + now rewrite M.
    + now rewrite orb_false_r.
  - rewrite mem_app. cbn. now rewrite orb_false_r.
Qed.

Lemma rows_assign (df : DataFrame) (c : string) (f : Row -> cell) :
  rows (assign df c f) = map (fun r => set_cell r c (f r)) (rows df).
Proof. reflexivity. Qed.

Lemma columns_map_column (df : DataFrame) (c : string) (f : cell -> cell) :
  columns (map_column df c f) = columns df.
Proof. reflexivity. Qed.

Lemma columns_clean (raw : DataFrame) : columns (clean_columns raw) = columns raw.
Proof.
  unfold clean_columns.
  generalize [COL_L1; COL_L2; COL_INT_OUT; COL_FIN_OUT; COL_IMP_OUT].
  intros cs. revert raw. induction cs as [|c cs IH]; intros raw; [reflexivity|].
  cbn [fold_left]. rewrite IH. now destruct (has_col raw c).
Qed.

Lemma has_col_clean (raw : DataFrame) (c : string) :
  has_col (clean_columns raw) c = has_col raw c.
Proof. unfold has_col. now rewrite columns_clean. Qed.

(** ** One tier of the long table *)

Section Tier.

Variables (df d : DataFrame) (out strength sign tier : string).
Hypothesis built : tier_long df out strength sign tier = Ok d.

Lemma tier_long_inv :
  exists d2 : DataFrame,
    d = assign (assign (assign (assign d2
          "outcome_type" (fun _ => Str tier))
          "outcome_name" (fun x => get x out))
          "strength" (fun x => get x strength))
          "sign" (fun x => get x sign)
    /\ has_col d2 COL_L1 = true /\ has_col d2 COL_L2 = true
    /\ columns d2 = (cols_keep df ++ [out; strength; sign])%list.
Proof.
  unfold tier_long, bind in built.
  destruct (getitem df _) as [d1|] eqn:G; [|discriminate].
  destruct (dropna d1 _) as [d2|] eqn:D; [|discriminate].
  injection built as <-. exists d2. split; [reflexivity|].
  unfold getitem in G. destruct (find _ _) in G; [discriminate|].
  injection G as <-.
  unfold dropna in D. destruct (find _ _) eqn:F in D; [discriminate|].
  injection D as <-.
  assert (A := find_none_all _ _ F). unfold has_col in *. cbn [columns] in *.
  repeat split; apply A; cbn; tauto.
Qed.

Lemma tier_long_has_keys (c : string) : In c group_keys -> has_col d c = true.
Proof.
  destruct tier_long_inv as [d2 [-> [H1 [H2 _]]]].
  intros H. rewrite !has_col_assign.
  cbn in H. destruct H as [<-|[<-|[<-|[<-|[]]]]].
  - now rewrite H1.
  - now rewrite H2.
  - now destruct (has_col d2 "outcome_type").
  - now destruct (has_col d2 "outcome_name").
Qed.

Lemma tier_long_type (r : Row) : In r (rows d) -> get r "outcome_type" = Str tier.
Proof.
  destruct tier_long_inv as [d2 [-> _]].
  rewrite !rows_assign, !map_map. intros H. apply in_map_iff in H as [r0 [<- _]].
  rewrite !get_set_cell_other by discriminate.
  apply get_set_cell_same.
Qed.

End Tier.

(** ** The long table *)

Lemma mem_union_step (c : string) (dfs : list DataFrame) (acc : list string) :
  mem c acc = true \/ (exists d, In d dfs /\ mem c (columns d) = true) ->
  mem c (fold_left
           (fun acc d => (acc ++ filter (fun c => negb (mem c acc)) (columns d))%list)
           dfs acc) = true.
Proof.
  revert acc. induction dfs as [|d0 dfs IH]; intros acc H; cbn [fold_left].
  - destruct H as [H | [d [[] _]]]. exact H.
  - apply IH. rewrite mem_app.
    destruct (mem c acc) eqn:M; [now left|].
    destruct H as [H | [d [[<- | Hd] Hc]]]; [discriminate| |].
    + left. cbn. apply mem_In. apply filter_In. split.
      * now apply mem_In.
      * now rewrite M.
    + right. now exists d.
Qed.

Lemma mem_union_cols (dfs : list DataFrame) (d : DataFrame) (c : string) :
  In d dfs -> mem c (columns d) = true -> mem c (union_cols dfs) = true.
Proof.
  intros Hd Hc. apply mem_union_step. right. now exists d.
Qed.

Lemma rows_concat (dfs : list DataFrame) (r : Row) :
  In r (rows (concat dfs)) ->
  exists d r0, In d dfs /\ In r0 (rows d) /\ r = reindex (union_cols dfs) r0.
Proof.
  unfold concat. cbn [rows]. intros H.
  apply in_flat_map in H as [d [Hd H]].
  apply in_map_iff in H as [r0 [<- H0]]. now exists d, r0.
Qed.

Lemma long_of_inv (df l : DataFrame) :
  long_of df = Ok l ->
  exists il fl ml,
    int_long df = Ok il /\ fin_long df = Ok fl /\ imp_long df il = Ok ml
    /\ l = concat [il; fl; ml].
Proof.
  unfold long_of, bind.
  destruct (int_long df) as [il|] eqn:Hi; [|discriminate].
  destruct (fin_long df) as [fl|] eqn:Hf; [|discriminate].
  destruct (imp_long df il) as [ml|] eqn:Hm; [|discriminate].
  intros H. injection H as <-. exists il, fl, ml. auto.
Qed.

Lemma long_has_keys (df l : DataFrame) (c : string) :
  long_of df = Ok l -> In c group_keys -> has_col l c = true.
Proof.
  intros H Hc. destruct (long_of_inv _ _ H) as [il [fl [ml [Hi [_ [_ ->]]]]]].
  unfold has_col, concat. cbn [columns].
  apply mem_union_cols with il; [now left|].
  exact (tier_long_has_keys _ _ _ _ _ _ Hi c Hc).
Qed.

Lemma get_long_row (df l : DataFrame) (r : Row) :
  long_of df = Ok l -> In r (rows l) ->
  exists t, In t tiers /\ get r "outcome_type" = Str t.
Proof.
  intros H Hr. destruct (long_of_inv _ _ H) as [il [fl [ml [Hi [Hf [Hm ->]]]]]].
  destruct (rows_concat _ _ Hr) as [d [r0 [Hd [H0 ->]]]].
  rewrite get_reindex.
  2:{ apply mem_union_cols with il; [now left|].
      apply (tier_long_has_keys _ _ _ _ _ _ Hi). cbn. tauto. }
  destruct Hd as [<- | [<- | [<- | []]]].
  - exists INTERMEDIATE. split; [cbn; tauto|].
    exact (tier_long_type _ _ _ _ _ _ Hi r0 H0).
  - exists FINAL. split; [cbn; tauto|].
    exact (tier_long_type _ _ _ _ _ _ Hf r0 H0).
  - unfold imp_long in Hm. destruct (forallb _ _).
    + exists IMPACT. split; [cbn; tauto|].
      exact (tier_long_type _ _ _ _ _ _ Hm r0 H0).
    + injection Hm as <-. destruct H0.
Qed.

(** ** Grouping *)

Lemma spec_float_eqb_eq (x y : spec_float) : spec_float_eqb x y = true <-> x = y.
Proof.
  destruct x, y; cbn; split; try discriminate; try reflexivity.
  - intros H. apply eqb_prop in H. now subst.
  - intros H. injection H as <-. apply eqb_reflx.
  - intros H. apply eqb_prop in H. now subst.
  - intros H. injection H as <-. apply eqb_reflx.
  - intros H. apply andb_true_iff in H as [H H3]. apply andb_true_iff in H as [H1 H2].
    apply eqb_prop in H1. apply Pos.eqb_eq in H2. apply Z.eqb_eq in H3. now subst.
  - intros H. injection H as <- <- <-.
    now rewrite eqb_reflx, Pos.eqb_refl, Z.eqb_refl.
Qed.

Lemma cell_eqb_eq (a b : cell) : cell_eqb a b = true <-> a = b.
Proof.
  destruct a, b; cbn; split; try discriminate; try reflexivity.
  - intros H. apply String.eqb_eq in H. now subst.
  - intros H. injection H as <-. apply String.eqb_refl.
  - intros H. apply spec_float_eqb_eq in H. now subst.
  - intros H. injection H as <-. now apply spec_float_eqb_eq.
Qed.

Lemma key_eqb_eq (a b : key) : key_eqb a b = true <-> a = b.
Proof.
  destruct a as [[[a1 a2] a3] a4], b as [[[b1 b2] b3] b4]. cbn.
  rewrite !andb_true_iff, !cell_eqb_eq. split.
  - intros [[[-> ->] ->] ->]. reflexivity.
  - intros H. injection H as -> -> -> ->. tauto.
Qed.

Lemma key_eqb_refl (a : key) : key_eqb a a = true.
Proof. now apply key_eqb_eq. Qed.

(** The four comparisons of the mask are equalities of the four fields. *)
Lemma mask_spec (l1 l2 o_type o_name : string) (r : Row) :
  mask l1 l2 o_type o_name r = true <->
  row_key r = (Str l1, Str l2, Str o_type, Str o_name).
Proof.
  unfold mask, cell_is, row_key. rewrite !andb_true_iff, !cell_eqb_eq. split.
  - intros [[[-> ->] ->] ->]. reflexivity.
  - intros H. injection H as -> -> -> ->. tauto.
Qed.

Lemma group_rows_add (k k0 : key) (r : Row) (gs : list group) :
  group_rows k (add_to_groups k0 r gs) =
  (group_rows k gs ++ if key_eqb k0 k then [r] else [])%list.
Proof.
  induction gs as [|[k' rs] gs IH]; cbn.
  - destruct (key_eqb k0 k) eqn:E.
    + apply key_eqb_eq in E. subst. now rewrite key_eqb_refl.
    + destruct (key_eqb k k0) eqn:E'; [|reflexivity].
      apply key_eqb_eq in E'. subst. now rewrite key_eqb_refl in E.
  - destruct (key_eqb k0 k') eqn:E0; cbn.
    + apply key_eqb_eq in E0. subst k'.
      destruct (key_eqb k k0) eqn:E.
      * apply key_eqb_eq in E. subst. now rewrite key_eqb_refl.
      * destruct (key_eqb k0 k) eqn:E'; [|now rewrite app_nil_r].
        apply key_eqb_eq in E'. subst. now rewrite key_eqb_refl in E.
    + destruct (key_eqb k k') eqn:E; [|exact IH].
      apply key_eqb_eq in E. subst k'. rewrite E0. now rewrite app_nil_r.
Qed.

Lemma group_rows_fold (k : key) (rs : list Row) (gs : list group) :
  group_rows k (fold_left (fun gs r => add_to_groups (row_key r) r gs) rs gs) =
  (group_rows k gs ++ rows_with k rs)%list.
Proof.
  revert gs. induction rs as [|r rs IH]; intros gs; cbn [fold_left].
  - unfold rows_with. cbn. now rewrite app_nil_r.
  - rewrite IH, group_rows_add, <- app_assoc. f_equal.
    unfold rows_with. cbn [filter]. now destruct (key_eqb (row_key r) k).
Qed.

Lemma group_rows_of (k : key) (rs : list Row) :
  group_rows k (groups_of rs) = rows_with k rs.
Proof. unfold groups_of. now rewrite group_rows_fold. Qed.

Lemma keys_add (k : key) (r : Row) (gs : list group) :
  map fst (add_to_groups k r gs) =
  if existsb (key_eqb k) (map fst gs) then map fst gs
  else (map fst gs ++ [k])%list.
Proof.
  induction gs as [|[k' rs] gs IH]; cbn; [reflexivity|].
  destruct (key_eqb k k') eqn:E; cbn; [reflexivity|].
  rewrite IH. now destruct (existsb (key_eqb k) (map fst gs)).
Qed.

Lemma well_grouped_add (k : key) (r : Row) (gs : list group) :
  well_grouped gs -> well_grouped (add_to_groups k r gs).
Proof.
  intros [ND NE]. split.
  - rewrite keys_add. destruct (existsb _ _) eqn:E; [assumption|].
    apply NoDup_app; [assumption | repeat constructor; intros [] |].
    intros k' Hk' [<- | []].
    assert (existsb (key_eqb k) (map fst gs) = true); [|congruence].
    apply existsb_exists. exists k. split; [assumption | apply key_eqb_refl].
  - clear ND. induction gs as [|[k' rs'] gs IH]; cbn; intros k0 rs.
    + intros [H | []]. injection H as <- <-. discriminate.
    + destruct (key_eqb k k').
      * intros [H | H].
        -- injection H as <- <-. now destruct rs'.
        -- apply (NE k0 rs). now right.
      * intros [H | H].
        -- apply (NE k0 rs). now left.
        -- exact (IH (fun k1 rs1 H1 => NE k1 rs1 (or_intror H1)) k0 rs H).
Qed.

Lemma well_grouped_of (rs : list Row) : well_grouped (groups_of rs).
Proof.
  unfold groups_of.
  assert (G : well_grouped []) by (split; [constructor | intros ? ? []]).
  revert G. generalize (@nil group).
  induction rs as [|r rs IH]; intros gs G; cbn [fold_left]; [assumption|].
  apply IH. now apply well_grouped_add.
Qed.

Lemma group_rows_In (k : key) (rs : list Row) (gs : list group) :
  NoDup (map fst gs) -> In (k, rs) gs -> group_rows k gs = rs.
Proof.
  induction gs as [|[k' rs'] gs IH]; cbn; [tauto|].
  intros ND [H | H].
  - injection H as -> ->. now rewrite key_eqb_refl.
  - inversion ND as [|? ? Hn ND']; subst.
    destruct (key_eqb k k') eqn:E.
    + apply key_eqb_eq in E. subst k'. exfalso. apply Hn.
      apply in_map_iff. now exists (k, rs).
    + now apply IH.
Qed.

(** A group holds the rows of the table that have its key, in their order. *)
Lemma groups_of_spec (k : key) (rs rows : list Row) :
  In (k, rs) (groups_of rows) -> rs = rows_with k rows /\ rs <> [].
Proof.
  intros H. destruct (well_grouped_of rows) as [ND NE]. split.
  - rewrite <- group_rows_of. symmetry. now apply group_rows_In.
  - now apply NE with k.
Qed.

Lemma insert_by_perm {A : Type} (leb : A -> A -> bool) (x : A) (l : list A) :
  Permutation (insert_by leb x l) (x :: l).
Proof.
  induction l as [|y l IH]; cbn; [reflexivity|].
  destruct (leb x y); [reflexivity|].
  rewrite IH. apply perm_swap.
Qed.

Lemma isort_by_perm {A : Type} (leb : A -> A -> bool) (l : list A) :
  Permutation (isort_by leb l) l.
Proof.
  induction l as [|x l IH]; cbn; [reflexivity|].
  fold (isort_by leb l). rewrite insert_by_perm. now constructor.
Qed.

Lemma groupby_spec (l : DataFrame) (gs : list group) (k : key) (rs : list Row) :
  groupby l = Ok gs -> In (k, rs) gs ->
  rs = rows_with k (rows l) /\ rs <> [].
Proof.
  unfold groupby. destruct (find _ _); [discriminate|].
  intros H. injection H as <-. intros Hin.
  apply groups_of_spec.
  eapply Permutation_in; [apply isort_by_perm | exact Hin].
Qed.

Lemma aggregate_inv (mean : list cell -> spec_float) (l : DataFrame)
      (a : list AggRow) (r : AggRow) :
  aggregate mean l = Ok a -> In r a ->
  n r = List.length (rows_with (agg_key r) (rows l))
  /\ rows_with (agg_key r) (rows l) <> [].
Proof.
  unfold aggregate, bind. destruct (groupby l) as [gs|] eqn:G; [|discriminate].
  intros H. injection H as <-. intros Hin.
  apply in_map_iff in Hin as [[[[[k1 k2] k3] k4] rs] [<- Hg]].
  destruct (groupby_spec _ _ _ _ G Hg) as [E NE].
  unfold agg_key. cbn. now rewrite <- E.
Qed.

Lemma group_rows_found (k : key) (gs : list group) :
  group_rows k gs <> [] -> exists rs, In (k, rs) gs.
Proof.
  induction gs as [|[k' rs'] gs IH]; cbn; [congruence|].
  destruct (key_eqb k k') eqn:E.
  - apply key_eqb_eq in E. subst k'. intros _. exists rs'. now left.
  - intros H. destruct (IH H) as [rs Hin]. exists rs. now right.
Qed.

Lemma groupby_perm (l : DataFrame) (gs : list group) :
  groupby l = Ok gs -> Permutation gs (groups_of (rows l)).
Proof.
  unfold groupby. destruct (find _ _); [discriminate|].
  intros H. injection H as <-. apply isort_by_perm.
Qed.

(** One row of the aggregate table for every key of the long table. *)
Lemma aggregate_keys (mean : list cell -> spec_float) (l : DataFrame)
      (a : list AggRow) :
  aggregate mean l = Ok a ->
  NoDup (map agg_key a)
  /\ forall row, In row (rows l) ->
                 exists r, In r a /\ agg_key r = row_key row.
Proof.
  unfold aggregate, bind. destruct (groupby l) as [gs|] eqn:G; [|discriminate].
  intros H. injection H as <-.
  assert (P := groupby_perm _ _ G).
  split.
  - rewrite map_map.
    rewrite (map_ext (fun g => agg_key (agg_row_of mean g)) fst)
      by (intros [[[[k1 k2] k3] k4] rs]; reflexivity).
    apply Permutation_NoDup with (map fst (groups_of (rows l))).
    + apply Permutation_map. now apply Permutation_sym.
    + apply well_grouped_of.
  - intros row Hrow.
    destruct (group_rows_found (row_key row) (groups_of (rows l))) as [rs Hin].
    + rewrite group_rows_of. intros E.
      assert (H : In row (rows_with (row_key row) (rows l))).
      { apply filter_In. split; [assumption | apply key_eqb_refl]. }
      rewrite E in H. destruct H.
    + apply (Permutation_in _ (Permutation_sym P)) in Hin.
      destruct (row_key row) as [[[k1 k2] k3] k4] eqn:K.
      eexists. split.
      * apply in_map_iff. exists (k1, k2, k3, k4, rs). split; [reflexivity|].
        exact Hin.
      * reflexivity.
Qed.

Lemma build_inv (mean : list cell -> spec_float) (raw : DataFrame) (g : Globals) :
  build mean raw = Ok g ->
  long_of (clean_columns raw) = Ok (long g) /\ aggregate mean (long g) = Ok (agg g).
Proof.
  unfold build, bind.
  destruct (long_of _) as [l|]; [|discriminate].
  destruct (aggregate mean l) as [a|] eqn:A; [|discriminate].
  intros H. injection H as <-. cbn. now split.
Qed.

(** ** Aggregation: the count of a group *)

Lemma example_built : build naive_mean example_df = Ok example_globals.
Proof. vm_compute. reflexivity. Qed.

Lemma example_agg_row_In : In example_agg_row (agg example_globals).
Proof. vm_compute. tauto. Qed.

(** The example of the specification: three rows, mean strength 2.8 and
    mean direction 0.833. *)
Example example_agg_row_labels :
  n example_agg_row = 3
  /\ strength_label example_agg_row = "high"
  /\ direction_label example_agg_row = Some "mostly positive".
Proof. vm_compute. auto. Qed.

(** C2.  In every row of the aggregate table, [n] is the number of rows
    of the long table that have the row's level 1, level 2, outcome type
    and outcome name; no two rows of the aggregate table have the same
    four values, and every row of the long table is counted in one. *)
Theorem agg_n_counts (mean : list cell -> spec_float) (raw : DataFrame)
        (g : Globals) :
  build mean raw = Ok g ->
  (forall r : AggRow,
      In r (agg g) ->
      n r = List.length
              (filter (fun row => key_eqb (row_key row) (agg_key r))
                      (rows (long g))))
  /\ NoDup (map agg_key (agg g))
  /\ (forall row : Row,
        In row (rows (long g)) ->
        exists r, In r (agg g) /\ agg_key r = row_key row).
Proof.
  intros B. destruct (build_inv _ _ _ B) as [_ A]. split.
  - intros r Hr. exact (proj1 (aggregate_inv _ _ _ _ A Hr)).
  - exact (aggregate_keys _ _ _ A).
Qed.

Lemma agg_n_counts_witness :
  build naive_mean example_df = Ok example_globals
  /\ In example_agg_row (agg example_globals)
  /\ n example_agg_row =
     List.length
       (filter (fun row => key_eqb (row_key row) (agg_key example_agg_row))
               (rows (long example_globals)))
  /\ n example_agg_row = 3.
Proof.
  split; [exact example_built|].
  split; [exact example_agg_row_In|].
  split; [|reflexivity].
  exact (proj1 (agg_n_counts naive_mean example_df example_globals example_built)
               example_agg_row example_agg_row_In).
Defined.

(** ** Characters, digits and numbers *)

Lemma chars_aux_fst (s : string) : fst (chars_aux 0 s) = EmptyString.
Proof.
  destruct s as [|b s]; [reflexivity|]. cbn [chars_aux].
  now destruct (chars_aux (char_len b - 1) s).
Qed.

Lemma chars_single (c : ascii) (s : string) :
  (nat_of_ascii c <? 192)%nat = true ->
  chars (String c s) = String c EmptyString :: chars s.
Proof.
  intros H. unfold chars, char_len. cbn [chars_aux]. unfold char_len. rewrite H.
  cbn [Nat.sub]. assert (F := chars_aux_fst s).
  destruct (chars_aux 0 s) as [c0 l]. cbn in F. now subst c0.
Qed.

Lemma chars_app_single (a s : string) :
  forallb (fun c => (nat_of_ascii c <? 192)%nat) (list_ascii_of_string a) = true ->
  chars (a ++ s) = (map single (list_ascii_of_string a) ++ chars s)%list.
Proof.
  induction a as [|c a IH]; cbn; [reflexivity|].
  intros H. apply andb_true_iff in H as [Hc H].
  rewrite chars_single by exact Hc. now rewrite IH.
Qed.


Lemma digit_single (c : ascii) :
  is_digit c = true ->
  (nat_of_ascii c <? 192)%nat = true
  /\ is_space_char (single c) = false
  /\ digit_of_char (single c) = Some (N.of_nat (nat_of_ascii c - 48)).
Proof.
  destruct c as [[] [] [] [] [] [] [] []]; vm_compute; intros H;
    try discriminate H; repeat split; reflexivity.
Qed.


Lemma uint_digits (d : Decimal.uint) :
  forallb is_digit (list_ascii_of_string (NilEmpty.string_of_uint d)) = true.
Proof. induction d; cbn; auto. Qed.

Lemma forallb_weaken {A : Type} (p q : A -> bool) (l : list A) :
  (forall x, p x = true -> q x = true) -> forallb p l = true -> forallb q l = true.
Proof.
  intros H. induction l as [|x l IH]; cbn; [reflexivity|].
  intros E. apply andb_true_iff in E as [Ex E]. now rewrite (H x Ex), IH.
Qed.

Lemma int_of_uint (d : Decimal.uint) (acc : nat) :
  fold_left (fun a c => (10 * a + Z.of_nat (nat_of_ascii c - 48))%Z)
            (list_ascii_of_string (NilEmpty.string_of_uint d)) (Z.of_nat acc)
  = Z.of_nat (Nat.of_uint_acc d acc).
Proof.
  revert acc. induction d; intros acc;
    cbn [NilEmpty.string_of_uint list_ascii_of_string fold_left Nat.of_uint_acc];
    try reflexivity;
    rewrite <- IHd; f_equal; rewrite Nat.tail_mul_spec.
  all: match goal with
       | |- context [Z.of_nat (nat_of_ascii ?c - 48)] =>
           let v := eval vm_compute in (Z.of_nat (nat_of_ascii c - 48)) in
           change (Z.of_nat (nat_of_ascii c - 48)) with v
       end.
  all: lia.
Qed.

(** Reading the digits of ASCII as characters is reading their bytes. *)
Lemma fold_digits_single (l : list ascii) (acc : Z) :
  forallb is_digit l = true ->
  fold_left (fun a c => (10 * a + match digit_of_char c with
                                  | Some d => Z.of_N d
                                  | None => 0
                                  end)%Z) (map single l) acc
  = fold_left (fun a c => (10 * a + Z.of_nat (nat_of_ascii c - 48))%Z) l acc.
Proof.
  revert acc. induction l as [|c l IH]; intros acc H; [reflexivity|].
  cbn [forallb] in H. apply andb_true_iff in H as [Hc H].
  cbn [map fold_left]. destruct (digit_single c Hc) as [_ [_ ->]].
  rewrite nat_N_Z. now apply IH.
Qed.

Lemma chars_ascii (a : string) :
  forallb (fun c => (nat_of_ascii c <? 192)%nat) (list_ascii_of_string a) = true ->
  chars a = map single (list_ascii_of_string a).
Proof.
  intros H. assert (E := chars_app_single a EmptyString H).
  replace (a ++ "") with a in E.
  - rewrite E. apply app_nil_r.
  - clear. induction a as [|c a IH]; cbn; [reflexivity | now rewrite <- IH].
Qed.

Lemma int_of_digits_str (k : nat) : int_of_digits (str_of_nat k) = Z.of_nat k.
Proof.
  unfold int_of_digits, str_of_nat.
  assert (D := uint_digits (Nat.to_uint k)).
  rewrite chars_ascii
    by (revert D; apply forallb_weaken; intros c Hc; apply (digit_single c Hc)).
  rewrite (fold_digits_single _ _ D).
  etransitivity; [exact (int_of_uint (Nat.to_uint k) 0)|].
  change (Nat.of_uint_acc (Nat.to_uint k) 0) with (Nat.of_uint (Nat.to_uint k)).
  now rewrite DecimalNat.Unsigned.of_to.
Qed.




(** ** Sizing *)

Lemma fold_max_ge (l : list nat) (x : nat) :
  (x <= fold_left Nat.max l x)%nat
  /\ (forall k, In k l -> (k <= fold_left Nat.max l x)%nat).
Proof.
  revert x. induction l as [|y l IH]; intros x; cbn.
  - split; [lia | tauto].
  - destruct (IH (Nat.max x y)) as [H1 H2]. split; [lia|].
    intros k [<- | Hk]; [lia | now apply H2].
Qed.



Section Binary64.

Local Open Scope Z_scope.
























End Binary64.





(** C9, as stated, fails: with one article under one label and 200 under
    another the size reference is [400 / 48 ** 2], the bubble of 200 has
    the radius 24 and the bubble of 1, whose share would be the squared
    radius 2.88, is drawn with the least radius 4, so that the areas are
    as 16 to 576 and not as 1 to 200. *)
Lemma sizemin_counterexample :
  build naive_mean crowded_df = Ok crowded_globals
  /\ map n (agg crowded_globals) = [1; 200]%nat
  /\ sizeref (agg crowded_globals) = S754_finite false 6254999482459022 (-55)
  /\ sizemode (marker (agg crowded_globals)) = "area"
  /\ sizemin (marker (agg crowded_globals)) = 4%Z
  /\ (radius_sq (marker (agg crowded_globals)) 1 == 4 ^ 2)%Q
  /\ (24 ^ 2 - 1 < radius_sq (marker (agg crowded_globals)) 200)%Q
  /\ (radius_sq (marker (agg crowded_globals)) 200 < 24 ^ 2 + 1)%Q
  /\ ~ (radius_sq (marker (agg crowded_globals)) 1 * Qnat 200
        == Qnat 1 * radius_sq (marker (agg crowded_globals)) 200)%Q.
Proof.
  split; [vm_compute; reflexivity|].
  split; [vm_compute; reflexivity|].
  split; [vm_compute; reflexivity|].
  split; [reflexivity|]. split; [reflexivity|].
  split; [vm_compute; reflexivity|].
  split; [vm_compute; reflexivity|].
  split; [vm_compute; reflexivity|].
  vm_compute. discriminate.
Qed.

(** ** Absent impact columns *)

(** C6.  When the three impact columns are not all in the input, the
    impact table has no row and the columns of the intermediate table,
    and the long table and the aggregate table are built. *)
Theorem imp_long_absent (mean : list cell -> spec_float)
        (raw il fl : DataFrame) :
  forallb (has_col raw) imp_required = false ->
  int_long (clean_columns raw) = Ok il ->
  fin_long (clean_columns raw) = Ok fl ->
  exists ml,
    imp_long (clean_columns raw) il = Ok ml
    /\ rows ml = [] /\ columns ml = columns il
    /\ exists g, build mean raw = Ok g /\ long g = concat [il; fl; ml].
Proof.
  intros Habs Hi Hf. exists (mkDF (columns il) []).
  assert (Hm : imp_long (clean_columns raw) il = Ok (mkDF (columns il) [])).
  { unfold imp_long. unfold imp_required in *. cbn [forallb] in *.
    rewrite !has_col_clean. now rewrite Habs. }
  split; [exact Hm|]. split; [reflexivity|]. split; [reflexivity|].
  assert (L : long_of (clean_columns raw)
              = Ok (concat [il; fl; mkDF (columns il) []])).
  { unfold long_of, bind. now rewrite Hi, Hf, Hm. }
  unfold build, bind. rewrite L.
  unfold aggregate, bind, groupby.
  rewrite all_find_none by (intros c Hc; exact (long_has_keys _ _ c L Hc)).
  eexists. split; reflexivity.
Qed.

Lemma imp_long_absent_witness :
  forallb (has_col example_df) imp_required = false
  /\ exists il fl ml,
       int_long (clean_columns example_df) = Ok il
       /\ fin_long (clean_columns example_df) = Ok fl
       /\ imp_long (clean_columns example_df) il = Ok ml
       /\ rows ml = [] /\ columns ml = columns il
       /\ exists g, build naive_mean example_df = Ok g
                    /\ long g = concat [il; fl; ml].
Proof.
  split; [reflexivity|].
  destruct (int_long (clean_columns example_df)) as [il|] eqn:Hi;
    [|vm_compute in Hi; discriminate Hi].
  destruct (fin_long (clean_columns example_df)) as [fl|] eqn:Hf;
    [|vm_compute in Hf; discriminate Hf].
  destruct (imp_long_absent naive_mean example_df il fl eq_refl Hi Hf)
    as [ml H].
  exists il, fl, ml. tauto.
Defined.

(** ** Detail resolver *)

(** C5.  Without a click, or when the x key is not a data column or the
    y key is not a data row, the resolver returns no record and a prompt;
    the header keys of both axes are such keys. *)
Theorem show_details_no_data (l : DataFrame) :
  show_details l None = Ok ([], PROMPT_CLICK)
  /\ (forall x y : string,
        startswith x COL_PREFIX_X = false \/ startswith y ROW_PREFIX_Y = false ->
        show_details l (Some (x, y)) = Ok ([], PROMPT_SELECT))
  /\ (forall t : string, startswith (HDR_PREFIX_X ++ t) COL_PREFIX_X = false)
  /\ (forall l1 : string, startswith (HDR_PREFIX_Y ++ l1) ROW_PREFIX_Y = false).
Proof.
  repeat apply conj; try reflexivity.
  intros x y H. unfold show_details.
  destruct H as [H | H]; rewrite H; [reflexivity|].
  now rewrite andb_false_r.
Qed.

Lemma show_details_no_data_witness :
  startswith (HDR_PREFIX_X ++ IMPACT) COL_PREFIX_X = false
  /\ show_details (long example_globals)
                  (Some (HDR_PREFIX_X ++ IMPACT, ROW_PREFIX_Y ++ "a || b"))
     = Ok ([], PROMPT_SELECT)
  /\ startswith (HDR_PREFIX_Y ++ "a") ROW_PREFIX_Y = false
  /\ show_details (long example_globals)
                  (Some (COL_PREFIX_X ++ "Impact || x", HDR_PREFIX_Y ++ "a"))
     = Ok ([], PROMPT_SELECT).
Proof.
  split; [reflexivity|].
  split; [apply (show_details_no_data (long example_globals)); left; reflexivity|].
  split; [reflexivity|].
  apply (show_details_no_data (long example_globals)); right; reflexivity.
Defined.

Lemma rows_fill_length (cols : list string) (d : DataFrame) :
  List.length
    (rows (fold_left
             (fun d c => if has_col d c then d else assign d c (fun _ => NA))
             cols d))
  = List.length (rows d).
Proof.
  revert d. induction cols as [|c cols IH]; intros d; cbn [fold_left]; [reflexivity|].
  rewrite IH. destruct (has_col d c); [reflexivity|].
  rewrite rows_assign. apply length_map.
Qed.

(** The data path of the resolver. *)
Lemma show_details_data (l : DataFrame) (x y o_type o_name l1 l2 : string) :
  startswith x COL_PREFIX_X = true -> startswith y ROW_PREFIX_Y = true ->
  parse_key COL_PREFIX_X x = Ok (o_type, o_name) ->
  parse_key ROW_PREFIX_Y y = Ok (l1, l2) ->
  (forall c, In c group_keys -> has_col l c = true) ->
  exists recs,
    show_details l (Some (x, y))
    = Ok (recs, detail_title o_type o_name l1 l2 (List.length recs))
    /\ List.length recs
       = List.length (filter (mask l1 l2 o_type o_name) (rows l)).
Proof.
  intros Sx Sy Px Py Hc. unfold show_details.
  rewrite Sx, Sy, Px, Py. cbn [andb negb bind].
  unfold check_columns. rewrite all_find_none by exact Hc. cbn [bind].
  eexists. split.
  - rewrite length_map. reflexivity.
  - rewrite length_map, rows_fill_length. reflexivity.
Qed.

(** C10.  For the two keys of a row of the aggregate table, the resolver
    returns records and a title.  The title is the outcome type, the
    outcome name between quotes, the two levels and, before the word
    "articles", the decimal writing of the number of records; that number
    is the number of rows of the long table whose level 1, level 2,
    outcome type and outcome name are the four values parsed from the
    keys. *)
Theorem show_details_count (mean : list cell -> spec_float)
        (py_repr : cell -> string) (raw : DataFrame) (g : Globals) (r : AggRow) :
  build mean raw = Ok g -> In r (agg g) ->
  exists o_type o_name l1 l2 recs title,
    parse_key COL_PREFIX_X (x_key py_repr r) = Ok (o_type, o_name)
    /\ parse_key ROW_PREFIX_Y (y_key py_repr r) = Ok (l1, l2)
    /\ show_details (long g) (Some (x_key py_repr r, y_key py_repr r))
       = Ok (recs, title)
    /\ title = o_type ++ " — " ++ dquote ++ o_name ++ dquote
               ++ "  |  " ++ l1 ++ " → " ++ l2
               ++ "  |  " ++ str_of_nat (List.length recs) ++ " articles"
    /\ int_of_digits (str_of_nat (List.length recs))
       = Z.of_nat (List.length recs)
    /\ List.length recs
       = List.length
           (filter (fun row => key_eqb (row_key row)
                                       (Str l1, Str l2, Str o_type, Str o_name))
                   (rows (long g))).
Proof.
  intros B Hr. destruct (build_inv _ _ _ B) as [L _].
  destruct (parse_key_built COL_PREFIX_X (py_str py_repr (outcome_type r))
                            (py_str py_repr (outcome_name r)))
    as [o_type [o_name [Px _]]].
  destruct (parse_key_built ROW_PREFIX_Y (py_str py_repr (agg_L1 r))
                            (py_str py_repr (agg_L2 r)))
    as [l1 [l2 [Py _]]].
  destruct (show_details_data (long g) (x_key py_repr r) (y_key py_repr r)
                              o_type o_name l1 l2) as [recs [S C]].
  - apply prefix_append.
  - apply prefix_append.
  - exact Px.
  - exact Py.
  - intros c Hc. exact (long_has_keys _ _ c L Hc).
  - exists o_type, o_name, l1, l2, recs.
    exists (detail_title o_type o_name l1 l2 (List.length recs)).
    split; [exact Px|]. split; [exact Py|]. split; [exact S|].
    split; [reflexivity|]. split; [apply int_of_digits_str | exact C].
Qed.

Lemma show_details_count_witness :
  build naive_mean example_df = Ok example_globals
  /\ In example_agg_row (agg example_globals)
  /\ exists recs,
       show_details (long example_globals)
                    (Some (x_key no_repr example_agg_row,
                           y_key no_repr example_agg_row))
       = Ok (recs, "Final Outcomes — " ++ dquote ++ "Reduced AMR incidence"
                   ++ dquote
                   ++ "  |  Surveillance systems → 2. Data sharing  |  3 articles")
       /\ List.length recs = 3%nat
       /\ int_of_digits "3" = 3%Z.
Proof.
  split; [exact example_built|]. split; [exact example_agg_row_In|].
  destruct (show_details_count naive_mean no_repr example_df example_globals
                               example_agg_row example_built example_agg_row_In)
    as [o_type [o_name [l1 [l2 [recs [title [Px [Py [S [T [D C]]]]]]]]]]].
  vm_compute in Px. injection Px as <- <-.
  vm_compute in Py. injection Py as <- <-.
  exists recs.
  assert (E : List.length recs = 3%nat) by (rewrite C; reflexivity).
  rewrite E in T, D. split; [|split; [exact E | exact D]].
  rewrite S, T. reflexivity.
Defined.

(** ** Round trip of the keys *)

Lemma agg_row_from_long (mean : list cell -> spec_float) (raw : DataFrame)
      (g : Globals) (r : AggRow) :
  build mean raw = Ok g -> In r (agg g) ->
  exists row, In row (rows (long g)) /\ row_key row = agg_key r.
Proof.
  intros B Hr. destruct (build_inv _ _ _ B) as [_ A].
  destruct (aggregate_inv _ _ _ _ A Hr) as [_ NE].
  destruct (rows_with (agg_key r) (rows (long g))) as [|row rs] eqn:E;
    [congruence|].
  assert (H : In row (rows_with (agg_key r) (rows (long g))))
    by (rewrite E; now left).
  apply filter_In in H as [H1 H2]. apply key_eqb_eq in H2. now exists row.
Qed.

(** The outcome type of a row of the aggregate table is one of the three
    tier names. *)
Lemma agg_outcome_type (mean : list cell -> spec_float) (raw : DataFrame)
      (g : Globals) (r : AggRow) :
  build mean raw = Ok g -> In r (agg g) ->
  exists t, In t tiers /\ outcome_type r = Str t.
Proof.
  intros B Hr. destruct (agg_row_from_long _ _ _ _ B Hr) as [row [Hin K]].
  destruct (build_inv _ _ _ B) as [L _].
  destruct (get_long_row _ _ _ L Hin) as [t [Ht E]].
  exists t. split; [assumption|].
  unfold row_key, agg_key in K. injection K as _ _ K _. congruence.
Qed.

(** C1, as it holds.  For a row of the aggregate table whose level 1 is a
    text that neither contains " || " nor ends with " ||", parsing the y
    key gives back level 1 and level 2; parsing the x key always gives
    back the outcome type and the outcome name. *)
Theorem key_roundtrip (mean : list cell -> spec_float)
        (py_repr : cell -> string) (raw : DataFrame) (g : Globals) (r : AggRow) :
  build mean raw = Ok g -> In r (agg g) ->
  (forall l1 l2 : string,
      agg_L1 r = Str l1 -> agg_L2 r = Str l2 ->
      contains l1 SEP = false -> endswith l1 " ||" = false ->
      parse_key ROW_PREFIX_Y (y_key py_repr r) = Ok (l1, l2))
  /\ (forall name : string,
        outcome_name r = Str name ->
        exists t, outcome_type r = Str t
                  /\ parse_key COL_PREFIX_X (x_key py_repr r) = Ok (t, name)).
Proof.
  intros B Hr. split.
  - intros l1 l2 E1 E2 C E. unfold y_key. rewrite E1, E2. cbn [py_str].
    now apply parse_key_roundtrip.
  - intros name E. destruct (agg_outcome_type _ _ _ _ B Hr) as [t [Ht Et]].
    exists t. split; [assumption|].
    unfold x_key. rewrite E, Et. cbn [py_str].
    apply parse_key_roundtrip;
      destruct Ht as [<- | [<- | [<- | []]]]; reflexivity.
Qed.

Lemma key_roundtrip_witness :
  build naive_mean example_df = Ok example_globals
  /\ In example_agg_row (agg example_globals)
  /\ contains "Surveillance systems" SEP = false
  /\ endswith "Surveillance systems" " ||" = false
  /\ parse_key ROW_PREFIX_Y (y_key no_repr example_agg_row)
     = Ok ("Surveillance systems", "2. Data sharing")
  /\ exists t, outcome_type example_agg_row = Str t
               /\ parse_key COL_PREFIX_X (x_key no_repr example_agg_row)
                  = Ok (t, "Reduced AMR incidence").
Proof.
  split; [exact example_built|]. split; [exact example_agg_row_In|].
  split; [reflexivity|]. split; [reflexivity|].
  destruct (key_roundtrip naive_mean no_repr example_df example_globals
                          example_agg_row example_built example_agg_row_In)
    as [Y X].
  split.
  - apply Y; reflexivity.
  - apply X. reflexivity.
Defined.

Lemma overlap_built : build naive_mean overlap_df = Ok overlap_globals.
Proof. vm_compute. reflexivity. Qed.

(** C1, as stated, fails: neither "Labs ||" nor "1. Testing" contains
    " || ", and the y key of that row is parsed into "Labs" and
    "|| 1. Testing". *)
Lemma key_roundtrip_counterexample :
  build naive_mean overlap_df = Ok overlap_globals
  /\ In overlap_agg_row (agg overlap_globals)
  /\ agg_L1 overlap_agg_row = Str "Labs ||"
  /\ agg_L2 overlap_agg_row = Str "1. Testing"
  /\ contains "Labs ||" SEP = false
  /\ contains "1. Testing" SEP = false
  /\ y_key no_repr overlap_agg_row = "__ROW__Labs || || 1. Testing"
  /\ parse_key ROW_PREFIX_Y (y_key no_repr overlap_agg_row)
     = Ok ("Labs", "|| 1. Testing")
  /\ parse_key ROW_PREFIX_Y (y_key no_repr overlap_agg_row)
     <> Ok ("Labs ||", "1. Testing").
Proof.
  split; [exact overlap_built|].
  split; [vm_compute; tauto|].
  repeat split; try reflexivity.
  vm_compute. discriminate.
Qed.

(** ** Order of the level-1 groups *)

Lemma filter_filter_same {A : Type} (p : A -> bool) (l : list A) :
  filter p (filter p l) = filter p l.
Proof.
  induction l as [|x l IH]; cbn; [reflexivity|].
  destruct (p x) eqn:E; cbn; rewrite ?E, IH; reflexivity.
Qed.

Lemma filter_filter_neg {A : Type} (p : A -> bool) (l : list A) :
  filter p (filter (fun x => negb (p x)) l) = [].
Proof.
  induction l as [|x l IH]; cbn; [reflexivity|].
  destruct (p x) eqn:E; cbn; rewrite ?E, IH; reflexivity.
Qed.

Lemma filter_neg_filter {A : Type} (p : A -> bool) (l : list A) :
  filter (fun x => negb (p x)) (filter p l) = [].
Proof.
  induction l as [|x l IH]; cbn; [reflexivity|].
  destruct (p x) eqn:E; cbn; rewrite ?E, IH; reflexivity.
Qed.

Lemma filter_neg_neg {A : Type} (p : A -> bool) (l : list A) :
  filter (fun x => negb (p x)) (filter (fun x => negb (p x)) l)
  = filter (fun x => negb (p x)) l.
Proof. apply (filter_filter_same (fun x => negb (p x))). Qed.

(** In [filter p l ++ filter (not p) l], what satisfies [p] stands before
    what does not. *)
Lemma partition_order {A : Type} (p : A -> bool) (l : list A)
      (i j : nat) (a b : A) :
  nth_error (filter p l ++ filter (fun x => negb (p x)) l)%list i = Some a ->
  nth_error (filter p l ++ filter (fun x => negb (p x)) l)%list j = Some b ->
  p a = true -> p b = false -> (i < j)%nat.
Proof.
  intros Ha Hb Pa Pb.
  assert (i < List.length (filter p l))%nat.
  { destruct (Nat.lt_ge_cases i (List.length (filter p l))) as [H|H]; [assumption|].
    rewrite nth_error_app2 in Ha by assumption.
    apply nth_error_In, filter_In in Ha as [_ Ha]. rewrite Pa in Ha. discriminate. }
  assert (List.length (filter p l) <= j)%nat.
  { destruct (Nat.lt_ge_cases j (List.length (filter p l))) as [H'|H']; [|assumption].
    rewrite nth_error_app1 in Hb by assumption.
    apply nth_error_In, filter_In in Hb as [_ Hb]. congruence. }
  lia.
Qed.

Lemma partition_perm {A : Type} (p : A -> bool) (l : list A) :
  Permutation (filter p l ++ filter (fun x => negb (p x)) l)%list l.
Proof.
  induction l as [|x l IH]; cbn; [constructor|].
  destruct (p x); cbn.
  - now constructor.
  - rewrite <- Permutation_middle. now constructor.
Qed.

Lemma header_of_row (py_repr : cell -> string) (r : AggRow) :
  startswith (y_key py_repr r) HDR_PREFIX_Y = false.
Proof. reflexivity. Qed.

Lemma headers_of_order_y (py_repr : cell -> string)
      (sort : (AggRow -> Z) -> list AggRow -> list AggRow)
      (a : list AggRow) (ls : list cell) :
  filter (fun k => startswith k HDR_PREFIX_Y)
         (flat_map (fun l1 => (HDR_PREFIX_Y ++ py_str py_repr l1)
                              :: map (y_key py_repr) (sorted_group py_repr sort a l1))
                   ls)
  = map (fun l1 => HDR_PREFIX_Y ++ py_str py_repr l1) ls.
Proof.
  induction ls as [|l1 ls IH]; [reflexivity|].
  cbn [flat_map map]. rewrite filter_app, IH. cbn [filter].
  unfold startswith at 1. rewrite prefix_append.
  cbn [app]. f_equal.
  induction (sorted_group py_repr sort a l1) as [|r rs IHr]; [reflexivity|].
  cbn [map filter]. rewrite header_of_row. exact IHr.
Qed.

(** C7.  In [unique_l1], every capability whose name begins with
    "surveillance" in any case stands before every other one; inside each
    of the two classes the capabilities stand as in the first-seen list of
    the aggregate table, of which [unique_l1] is a rearrangement; and the
    headers of [order_y] follow [unique_l1]. *)
Theorem unique_l1_order (py_repr : cell -> string)
        (sort : (AggRow -> Z) -> list AggRow -> list AggRow) (a : list AggRow) :
  (forall (i j : nat) (x y : cell),
      nth_error (unique_l1 py_repr a) i = Some x ->
      nth_error (unique_l1 py_repr a) j = Some y ->
      is_surveillance py_repr x = true -> is_surveillance py_repr y = false ->
      (i < j)%nat)
  /\ filter (is_surveillance py_repr) (unique_l1 py_repr a)
     = filter (is_surveillance py_repr) (first_seen_l1 a)
  /\ filter (fun l => negb (is_surveillance py_repr l)) (unique_l1 py_repr a)
     = filter (fun l => negb (is_surveillance py_repr l)) (first_seen_l1 a)
  /\ Permutation (unique_l1 py_repr a) (first_seen_l1 a)
  /\ filter (fun k => startswith k HDR_PREFIX_Y) (order_y py_repr sort a)
     = map (fun l1 => HDR_PREFIX_Y ++ py_str py_repr l1) (unique_l1 py_repr a).
Proof.
  repeat apply conj.
  - intros i j x y. apply partition_order.
  - unfold unique_l1.
    now rewrite filter_app, filter_filter_same, filter_filter_neg, app_nil_r.
  - unfold unique_l1.
    now rewrite filter_app, filter_neg_filter, filter_neg_neg.
  - apply partition_perm.
  - apply headers_of_order_y.
Qed.

Lemma unique_l1_order_witness :
  unique_l1 no_repr (agg example_globals)
  = [Str "Surveillance systems"; Str "Governance"]
  /\ first_seen_l1 (agg example_globals)
     = [Str "Governance"; Str "Surveillance systems"]
  /\ is_surveillance no_repr (Str "Surveillance systems") = true
  /\ is_surveillance no_repr (Str "Governance") = false
  /\ (0 < 1)%nat.
Proof.
  split; [reflexivity|]. split; [reflexivity|].
  split; [reflexivity|]. split; [reflexivity|].
  apply (proj1 (unique_l1_order no_repr stable_sort_values (agg example_globals))
               0%nat 1%nat (Str "Surveillance systems") (Str "Governance"));
    reflexivity.
Defined.

(** ** Order of the level-2 labels in a group *)



Lemma insert_by_sorted (k : AggRow -> Z) (x : AggRow) (l : list AggRow) :
  StronglySorted (fun a b => (k a <= k b)%Z) l ->
  StronglySorted (fun a b => (k a <= k b)%Z)
                 (insert_by (fun a b => (k a <=? k b)%Z) x l).
Proof.
  induction 1 as [|y l S IH F]; cbn.
  - repeat constructor.
  - destruct (Z.leb_spec (k x) (k y)) as [L | L].
    + constructor; [now constructor|].
      constructor; [assumption|].
      rewrite Forall_forall in *. intros z Hz. specialize (F z Hz). cbn in F. lia.
    + constructor; [assumption|].
      rewrite Forall_forall in *. intros z Hz.
      apply (Permutation_in _ (insert_by_perm _ x l)) in Hz.
      destruct Hz as [<- | Hz]; [lia | now apply F].
Qed.

Lemma stable_sort_values_sorts : sorts stable_sort_values.
Proof.
  intros k l. split.
  - apply isort_by_perm.
  - unfold stable_sort_values, isort_by.
    induction l as [|x l IH]; cbn; [constructor|].
    now apply insert_by_sorted.
Qed.




(** With a prefix above 9999 the order is forced too, whatever the sort. *)
Lemma sentinel_any_sort (sort : (AggRow -> Z) -> list AggRow -> list AggRow) :
  sorts sort ->
  sorted_group no_repr sort sentinel_agg (Str "Governance")
  = [governance "Other"; governance "10000. Scale-up"].
Proof.
  intros S. unfold sorted_group.
  change (filter _ sentinel_agg) with sentinel_agg.
  destruct (S (fun r => l2_num_prefix no_repr (agg_L2 r)) sentinel_agg) as [P So].
  remember (sort _ sentinel_agg) as s eqn:E. clear E.
  unfold sentinel_agg in P. apply Permutation_sym in P.
  apply Permutation_length_2_inv in P as [-> | ->]; [|reflexivity].
  exfalso. inversion So as [|? ? _ F]; subst.
  inversion F as [|? ? H _]; subst. vm_compute in H. now apply H.
Qed.


(* ================================================================= *)
(** * Further properties of the script *)

(** ** When the tables are built *)

Lemma find_some_missing (df : DataFrame) (cols : list string) (c : string) :
  find (fun c => negb (has_col df c)) cols = Some c ->
  In c cols /\ has_col df c = false.
Proof.
  intros H. apply find_some in H as [H1 H2].
  split; [assumption | now apply negb_true_iff].
Qed.

Lemma cols_keep_has (df : DataFrame) (c : string) :
  In c (cols_keep df) <-> In c keep_base /\ has_col df c = true.
Proof. unfold cols_keep. apply filter_In. Qed.

Lemma tier_long_needs (df d : DataFrame) (out strength sign tier c : string) :
  tier_long df out strength sign tier = Ok d ->
  In c [COL_L1; COL_L2; out; strength; sign] -> has_col df c = true.
Proof.
  unfold tier_long, bind.
  destruct (getitem df _) as [d1|] eqn:G; [|discriminate].
  destruct (dropna d1 _) as [d2|] eqn:D; [|discriminate].
  intros _. unfold getitem in G.
  destruct (find _ _) eqn:F in G; [discriminate|]. injection G as <-.
  assert (A := find_none_all _ _ F).
  unfold dropna in D. destruct (find _ _) eqn:F' in D; [discriminate|].
  assert (B := find_none_all _ _ F'). clear D F F'.
  assert (K : forall x, has_col (mkDF (cols_keep df ++ [out; strength; sign])%list
                                      (map (reindex (cols_keep df ++ [out; strength; sign])%list)
                                           (rows df))) x = true ->
                        has_col df x = true).
  { intros x Hx. unfold has_col in Hx. cbn [columns] in Hx.
    apply mem_In in Hx. destruct (in_app_or _ _ _ Hx) as [H | H].
    - now apply cols_keep_has in H.
    - apply A. apply in_or_app. now right. }
  intros [<- | [<- | H]].
  - apply K, B. cbn. tauto.
  - apply K, B. cbn. tauto.
  - apply A. apply in_or_app. right. exact H.
Qed.

Lemma tier_long_fails (df : DataFrame) (out strength sign tier : string) (e : exn) :
  tier_long df out strength sign tier = Raise e ->
  exists c, e = KeyError c
            /\ In c [COL_L1; COL_L2; out; strength; sign]
            /\ has_col df c = false.
Proof.
  unfold tier_long, bind.
  destruct (getitem df _) as [d1|] eqn:G.
  - destruct (dropna d1 _) as [d2|] eqn:D; [discriminate|].
    intros H. injection H as <-.
    unfold getitem in G. destruct (find _ _) eqn:F in G; [discriminate|].
    injection G as <-.
    unfold dropna in D. destruct (find _ _) as [c|] eqn:F' in D; [|discriminate].
    injection D as <-. exists c. split; [reflexivity|].
    apply find_some_missing in F' as [Hin Hc].
    unfold has_col in Hc. cbn [columns] in Hc.
    rewrite mem_app in Hc. apply orb_false_iff in Hc as [Hk Ho].
    assert (N : has_col df c = false \/ ~ In c keep_base).
    { destruct (has_col df c) eqn:E; [right | now left].
      intros Hb. assert (In c (cols_keep df)) by now apply cols_keep_has.
      apply mem_In in H. congruence. }
    destruct Hin as [<- | [<- | [<- | []]]].
    + split; [cbn; tauto|]. destruct N as [N | N]; [assumption|].
      exfalso. apply N. cbn. tauto.
    + split; [cbn; tauto|]. destruct N as [N | N]; [assumption|].
      exfalso. apply N. cbn. tauto.
    + cbn in Ho. rewrite String.eqb_refl in Ho. discriminate.
  - intros H. injection H as <-.
    unfold getitem in G. destruct (find _ _) as [c|] eqn:F in G; [|discriminate].
    injection G as <-. exists c. split; [reflexivity|].
    apply find_some_missing in F as [Hin Hc].
    split; [|assumption].
    destruct (in_app_or _ _ _ Hin) as [H | H].
    + apply cols_keep_has in H as [_ H]. congruence.
    + cbn in H |- *. tauto.
Qed.

Lemma tier_long_total (df : DataFrame) (out strength sign tier : string) :
  (forall c, In c [COL_L1; COL_L2; out; strength; sign] -> has_col df c = true) ->
  exists d, tier_long df out strength sign tier = Ok d.
Proof.
  intros H. destruct (tier_long df out strength sign tier) as [d|e] eqn:E.
  - now exists d.
  - destruct (tier_long_fails _ _ _ _ _ _ E) as [c [_ [Hin Hc]]].
    rewrite (H c Hin) in Hc. discriminate.
Qed.

Lemma aggregate_total (mean : list cell -> spec_float) (df l : DataFrame) :
  long_of df = Ok l -> exists a, aggregate mean l = Ok a.
Proof.
  intros L. unfold aggregate, bind, groupby.
  rewrite all_find_none by (intros c Hc; exact (long_has_keys _ _ c L Hc)).
  eexists. reflexivity.
Qed.

(** X1.  The tables are built exactly when the two level columns and the
    outcome, strength and sign columns of the intermediate and final
    tiers are in the input; otherwise the script stops with a [KeyError]
    on one of these columns that is missing.  The impact columns and the
    display columns are never required. *)
Theorem build_iff_required (mean : list cell -> spec_float) (raw : DataFrame) :
  ((exists g, build mean raw = Ok g) <->
   (forall c, In c required_columns -> has_col raw c = true))
  /\ (forall e, build mean raw = Raise e ->
                exists c, e = KeyError c /\ In c required_columns
                          /\ has_col raw c = false).
Proof.
  assert (Fail : forall e, build mean raw = Raise e ->
                           exists c, e = KeyError c /\ In c required_columns
                                     /\ has_col raw c = false).
  { intros e. unfold build, bind.
    destruct (long_of (clean_columns raw)) as [l|e'] eqn:L.
    - destruct (aggregate_total mean _ _ L) as [a ->]. discriminate.
    - intros H. injection H as <-. revert L. unfold long_of, bind.
      destruct (int_long (clean_columns raw)) as [il|e1] eqn:Hi.
      + destruct (fin_long (clean_columns raw)) as [fl|e2] eqn:Hf.
        * destruct (imp_long (clean_columns raw) il) as [ml|e3] eqn:Hm;
            [discriminate|].
          intros H. injection H as <-.
          unfold imp_long in Hm.
          destruct (forallb _ _) eqn:All in Hm; [|discriminate].
          destruct (tier_long_fails _ _ _ _ _ _ Hm) as [c [-> [Hin Hc]]].
          rewrite has_col_clean in Hc.
          exists c. split; [reflexivity|].
          rewrite forallb_forall in All.
          destruct Hin as [<- | [<- | Hin]]; [cbn; tauto | cbn; tauto |].
          exfalso. specialize (All c Hin). rewrite has_col_clean in All.
          congruence.
        * intros H. injection H as <-.
          destruct (tier_long_fails _ _ _ _ _ _ Hf) as [c [-> [Hin Hc]]].
          rewrite has_col_clean in Hc. exists c. split; [reflexivity|].
          split; [|assumption]. cbn in Hin |- *. tauto.
      + intros H. injection H as <-.
        destruct (tier_long_fails _ _ _ _ _ _ Hi) as [c [-> [Hin Hc]]].
        rewrite has_col_clean in Hc. exists c. split; [reflexivity|].
        split; [|assumption]. cbn in Hin |- *. tauto. }
  split; [|exact Fail]. split.
  - intros [g B] c Hc.
    unfold build, bind in B.
    destruct (long_of (clean_columns raw)) as [l|] eqn:L; [|discriminate].
    destruct (long_of_inv _ _ L) as [il [fl [ml [Hi [Hf _]]]]].
    rewrite <- has_col_clean.
    cbn in Hc. destruct Hc as [<- | [<- | [<- | [<- | [<- | Hc]]]]].
    + apply (tier_long_needs _ _ _ _ _ _ _ Hi). cbn. tauto.
    + apply (tier_long_needs _ _ _ _ _ _ _ Hi). cbn. tauto.
    + apply (tier_long_needs _ _ _ _ _ _ _ Hi). cbn. tauto.
    + apply (tier_long_needs _ _ _ _ _ _ _ Hi). cbn. tauto.
    + apply (tier_long_needs _ _ _ _ _ _ _ Hi). cbn. tauto.
    + apply (tier_long_needs _ _ _ _ _ _ _ Hf). cbn. tauto.
  - intros H. destruct (build mean raw) as [g|e] eqn:B; [now exists g|].
    destruct (Fail e eq_refl) as [c [_ [Hin Hc]]].
    rewrite (H c Hin) in Hc. discriminate.
Qed.

Lemma build_iff_required_witness :
  (forall c, In c required_columns -> has_col example_df c = true)
  /\ (exists g, build naive_mean example_df = Ok g)
  /\ build naive_mean (mkDF [COL_L1; COL_L2] []) = Raise (KeyError COL_INT_OUT)
  /\ exists c, KeyError COL_INT_OUT = KeyError c /\ In c required_columns
               /\ has_col (mkDF [COL_L1; COL_L2] []) c = false.
Proof.
  assert (H : forall c, In c required_columns -> has_col example_df c = true).
  { intros c Hc. cbn in Hc.
    repeat (destruct Hc as [<- | Hc]; [reflexivity|]). destruct Hc. }
  split; [exact H|].
  split; [exact (proj2 (proj1 (build_iff_required naive_mean example_df)) H)|].
  split; [reflexivity|].
  exact (proj2 (build_iff_required naive_mean (mkDF [COL_L1; COL_L2] []))
               (KeyError COL_INT_OUT) eq_refl).
Defined.

(** ** Rows of the long table *)

Lemma tier_long_rows (df d : DataFrame) (out strength sign tier : string) :
  tier_long df out strength sign tier = Ok d ->
  ~ In out added_columns -> ~ In strength added_columns ->
  ~ In sign added_columns ->
  forall r, In r (rows d) ->
    get r "outcome_type" = Str tier
    /\ get r "outcome_name" = get r out
    /\ get r "strength" = get r strength
    /\ get r "sign" = get r sign
    /\ isna (get r COL_L1) = false
    /\ isna (get r COL_L2) = false
    /\ isna (get r out) = false.
Proof.
  intros T No Ns Ng.
  unfold tier_long, bind in T.
  destruct (getitem df _) as [d1|] eqn:G; [|discriminate].
  destruct (dropna d1 _) as [d2|] eqn:D; [|discriminate].
  injection T as <-.
  unfold dropna in D. destruct (find _ _) in D; [discriminate|].
  injection D as <-.
  intros r Hr. rewrite !rows_assign, !map_map in Hr. cbn [rows] in Hr.
  apply in_map_iff in Hr as [r0 [<- H0]].
  apply filter_In in H0 as [_ H0]. cbn [forallb] in H0.
  apply andb_true_iff in H0 as [H1 H0]. apply andb_true_iff in H0 as [H2 H0].
  apply andb_true_iff in H0 as [H3 _].
  apply negb_true_iff in H1, H2, H3.
  set (r1 := set_cell r0 "outcome_type" (Str tier)).
  set (r2 := set_cell r1 "outcome_name" (get r1 out)).
  set (r3 := set_cell r2 "strength" (get r2 strength)).
  set (r4 := set_cell r3 "sign" (get r3 sign)).
  assert (O1 : forall c, c <> "outcome_type" -> get r1 c = get r0 c)
    by (intros c Hc; apply get_set_cell_other; congruence).
  assert (O2 : forall c, c <> "outcome_name" -> get r2 c = get r1 c)
    by (intros c Hc; apply get_set_cell_other; congruence).
  assert (O3 : forall c, c <> "strength" -> get r3 c = get r2 c)
    by (intros c Hc; apply get_set_cell_other; congruence).
  assert (O4 : forall c, c <> "sign" -> get r4 c = get r3 c)
    by (intros c Hc; apply get_set_cell_other; congruence).
  assert (O : forall c, ~ In c added_columns -> get r4 c = get r0 c).
  { intros c Hc. cbn in Hc.
    rewrite O4, O3, O2, O1; [reflexivity| | | |]; intros E; apply Hc; auto. }
  repeat apply conj.
  - rewrite O4, O3, O2 by discriminate. apply get_set_cell_same.
  - rewrite (O out) by assumption.
    rewrite O4, O3 by discriminate. unfold r2. rewrite get_set_cell_same.
    apply O1. intros E. apply No. cbn. auto.
  - rewrite (O strength) by assumption.
    rewrite O4 by discriminate. unfold r3. rewrite get_set_cell_same.
    rewrite O2, O1; [reflexivity| |]; intros E; apply Ns; cbn; auto.
  - rewrite (O sign) by assumption.
    unfold r4. rewrite get_set_cell_same.
    rewrite O3, O2, O1; [reflexivity| | |]; intros E; apply Ng; cbn; auto.
  - rewrite O by (cbn; intros [E|[E|[E|[E|[]]]]]; discriminate E). exact H1.
  - rewrite O by (cbn; intros [E|[E|[E|[E|[]]]]]; discriminate E). exact H2.
  - rewrite (O out) by assumption. exact H3.
Qed.

Lemma tier_long_has (df d : DataFrame) (out strength sign tier c : string) :
  tier_long df out strength sign tier = Ok d ->
  In c ([COL_L1; COL_L2; out; strength; sign] ++ added_columns)%list ->
  has_col d c = true.
Proof.
  intros T Hc. destruct (tier_long_inv _ _ _ _ _ _ T) as [d2 [-> [H1 [H2 Hcols]]]].
  rewrite !has_col_assign.
  assert (K : forall x, In x [out; strength; sign] -> has_col d2 x = true).
  { intros x Hx. unfold has_col. rewrite Hcols. apply mem_In.
    apply in_or_app. now right. }
  cbn in Hc.
  destruct Hc as [<- | [<- | [<- | [<- | [<- | [<- | [<- | [<- | [<- | []]]]]]]]]].
  - now rewrite H1.
  - now rewrite H2.
  - rewrite K by (cbn; tauto). reflexivity.
  - rewrite K by (cbn; tauto). reflexivity.
  - rewrite K by (cbn; tauto). reflexivity.
  - now destruct (has_col d2 "outcome_type").
  - now destruct (has_col d2 "outcome_name").
  - cbn. now rewrite !orb_true_r.
  - cbn. now rewrite !orb_true_r.
Qed.

Lemma tier_names_fresh :
  forall t out strength sign, In (t, (out, strength, sign)) tier_columns ->
    ~ In out added_columns /\ ~ In strength added_columns
    /\ ~ In sign added_columns.
Proof.
  intros t out strength sign H. cbn in H.
  destruct H as [H | [H | [H | []]]]; injection H as <- <- <- <-;
    repeat split; cbn; intros [E|[E|[E|[E|[]]]]]; vm_compute in E; discriminate E.
Qed.

(** X2.  Every row of the long table belongs to one tier: it carries the
    tier's name as outcome type and the tier's outcome, strength and sign
    as [outcome_name], [strength] and [sign], and its level 1, level 2
    and outcome name are not missing. *)
Theorem long_row_invariant (mean : list cell -> spec_float) (raw : DataFrame)
        (g : Globals) (r : Row) :
  build mean raw = Ok g -> In r (rows (long g)) ->
  exists t out strength sign,
    In (t, (out, strength, sign)) tier_columns
    /\ get r "outcome_type" = Str t
    /\ get r "outcome_name" = get r out
    /\ get r "strength" = get r strength
    /\ get r "sign" = get r sign
    /\ isna (get r COL_L1) = false
    /\ isna (get r COL_L2) = false
    /\ isna (get r "outcome_name") = false.
Proof.
  intros B Hr. destruct (build_inv _ _ _ B) as [L _].
  destruct (long_of_inv _ _ L) as [il [fl [ml [Hi [Hf [Hm E]]]]]].
  rewrite E in Hr.
  destruct (rows_concat _ _ Hr) as [d [r0 [Hd [H0 ->]]]].
  assert (Main : forall t out strength sign,
             In (t, (out, strength, sign)) tier_columns ->
             tier_long (clean_columns raw) out strength sign t = Ok d ->
             exists t out strength sign,
               In (t, (out, strength, sign)) tier_columns
               /\ get (reindex (union_cols [il; fl; ml]) r0) "outcome_type" = Str t
               /\ get (reindex (union_cols [il; fl; ml]) r0) "outcome_name"
                  = get (reindex (union_cols [il; fl; ml]) r0) out
               /\ get (reindex (union_cols [il; fl; ml]) r0) "strength"
                  = get (reindex (union_cols [il; fl; ml]) r0) strength
               /\ get (reindex (union_cols [il; fl; ml]) r0) "sign"
                  = get (reindex (union_cols [il; fl; ml]) r0) sign
               /\ isna (get (reindex (union_cols [il; fl; ml]) r0) COL_L1) = false
               /\ isna (get (reindex (union_cols [il; fl; ml]) r0) COL_L2) = false
               /\ isna (get (reindex (union_cols [il; fl; ml]) r0) "outcome_name")
                  = false).
  { intros t out strength sign Ht T.
    destruct (tier_names_fresh _ _ _ _ Ht) as [No [Ns Ng]].
    destruct (tier_long_rows _ _ _ _ _ _ T No Ns Ng r0 H0)
      as [A1 [A2 [A3 [A4 [A5 [A6 A7]]]]]].
    assert (U : forall c,
               In c ([COL_L1; COL_L2; out; strength; sign] ++ added_columns)%list ->
               get (reindex (union_cols [il; fl; ml]) r0) c = get r0 c).
    { intros c Hc. apply get_reindex. apply mem_union_cols with d; [assumption|].
      exact (tier_long_has _ _ _ _ _ _ c T Hc). }
    exists t, out, strength, sign.
    rewrite !U by (cbn; tauto).
    repeat split; try assumption. congruence. }
  destruct Hd as [<- | [<- | [<- | []]]].
  - apply (Main INTERMEDIATE COL_INT_OUT COL_INT_STRENGTH COL_INT_SIGN);
      [cbn; tauto | exact Hi].
  - apply (Main FINAL COL_FIN_OUT COL_FIN_STRENGTH COL_FIN_SIGN);
      [cbn; tauto | exact Hf].
  - unfold imp_long in Hm. destruct (forallb _ _).
    + apply (Main IMPACT COL_IMP_OUT COL_IMP_STRENGTH COL_IMP_SIGN);
        [cbn; tauto | exact Hm].
    + injection Hm as <-. destruct H0.
Qed.

Lemma long_row_invariant_witness :
  build naive_mean example_df = Ok example_globals
  /\ In (hd [] (rows (long example_globals))) (rows (long example_globals))
  /\ exists t out strength sign,
       In (t, (out, strength, sign)) tier_columns
       /\ get (hd [] (rows (long example_globals))) "outcome_type" = Str t
       /\ get (hd [] (rows (long example_globals))) "outcome_name"
          = get (hd [] (rows (long example_globals))) out
       /\ get (hd [] (rows (long example_globals))) "strength"
          = get (hd [] (rows (long example_globals))) strength
       /\ get (hd [] (rows (long example_globals))) "sign"
          = get (hd [] (rows (long example_globals))) sign
       /\ isna (get (hd [] (rows (long example_globals))) COL_L1) = false
       /\ isna (get (hd [] (rows (long example_globals))) COL_L2) = false
       /\ isna (get (hd [] (rows (long example_globals))) "outcome_name") = false.
Proof.
  assert (H : In (hd [] (rows (long example_globals)))
                 (rows (long example_globals)))
    by (vm_compute; left; reflexivity).
  split; [exact example_built|]. split; [exact H|].
  exact (long_row_invariant naive_mean example_df example_globals _
                            example_built H).
Defined.

(** ** Sizes of the tables *)

Lemma list_sum_perm (l l' : list nat) :
  Permutation l l' -> list_sum l = list_sum l'.
Proof.
  induction 1; unfold list_sum in *; cbn [fold_right]; lia.
Qed.

Lemma group_sizes_add (k : key) (r : Row) (gs : list group) :
  list_sum (map (fun g : group => List.length (snd g)) (add_to_groups k r gs))
  = S (list_sum (map (fun g : group => List.length (snd g)) gs)).
Proof.
  unfold list_sum. induction gs as [|[k' rs] gs IH]; cbn; [reflexivity|].
  destruct (key_eqb k k'); cbn.
  - rewrite length_app. cbn. lia.
  - rewrite IH. lia.
Qed.

Lemma group_sizes_of (rs : list Row) :
  list_sum (map (fun g : group => List.length (snd g)) (groups_of rs))
  = List.length rs.
Proof.
  unfold groups_of.
  assert (G : forall gs,
             list_sum (map (fun g : group => List.length (snd g))
                           (fold_left (fun gs r => add_to_groups (row_key r) r gs) rs gs))
             = (list_sum (map (fun g : group => List.length (snd g)) gs)
                + List.length rs)%nat).
  { induction rs as [|r rs IH]; intros gs; cbn [fold_left].
    - cbn. lia.
    - rewrite IH, group_sizes_add. cbn. lia. }
  now rewrite G.
Qed.

(** X3.  The counts of the aggregate table add up to the number of rows of
    the long table: every article-outcome row is counted in exactly one
    bubble. *)
Theorem agg_counts_total (mean : list cell -> spec_float) (raw : DataFrame)
        (g : Globals) :
  build mean raw = Ok g ->
  list_sum (map n (agg g)) = List.length (rows (long g)).
Proof.
  intros B. destruct (build_inv _ _ _ B) as [_ A].
  unfold aggregate, bind in A.
  destruct (groupby (long g)) as [gs|] eqn:G; [|discriminate].
  injection A as A. rewrite <- A, map_map.
  rewrite (map_ext (fun x => n (agg_row_of mean x))
                   (fun x : group => List.length (snd x)))
    by (intros [[[[k1 k2] k3] k4] rs]; reflexivity).
  rewrite <- group_sizes_of.
  apply list_sum_perm, Permutation_map. exact (groupby_perm _ _ G).
Qed.

Lemma agg_counts_total_witness :
  build naive_mean example_df = Ok example_globals
  /\ list_sum (map n (agg example_globals))
     = List.length (rows (long example_globals))
  /\ List.length (rows (long example_globals)) = 6%nat.
Proof.
  split; [exact example_built|]. split; [|reflexivity].
  exact (agg_counts_total naive_mean example_df example_globals example_built).
Defined.

Lemma rows_clean_length (raw : DataFrame) :
  List.length (rows (clean_columns raw)) = List.length (rows raw).
Proof.
  unfold clean_columns.
  generalize [COL_L1; COL_L2; COL_INT_OUT; COL_FIN_OUT; COL_IMP_OUT].
  intros cs. revert raw. induction cs as [|c cs IH]; intros raw; [reflexivity|].
  cbn [fold_left]. rewrite IH. destruct (has_col raw c); [|reflexivity].
  unfold map_column. cbn [rows]. apply length_map.
Qed.

Lemma filter_length_le {A : Type} (p : A -> bool) (l : list A) :
  (List.length (filter p l) <= List.length l)%nat.
Proof.
  induction l as [|x l IH]; cbn; [lia|]. destruct (p x); cbn; lia.
Qed.

Lemma tier_long_length (df d : DataFrame) (out strength sign tier : string) :
  tier_long df out strength sign tier = Ok d ->
  (List.length (rows d) <= List.length (rows df))%nat.
Proof.
  unfold tier_long, bind.
  destruct (getitem df _) as [d1|] eqn:G; [|discriminate].
  destruct (dropna d1 _) as [d2|] eqn:D; [|discriminate].
  intros H. injection H as <-.
  unfold getitem in G. destruct (find _ _) in G; [discriminate|]. injection G as <-.
  unfold dropna in D. destruct (find _ _) in D; [discriminate|]. injection D as <-.
  rewrite !rows_assign, !length_map. cbn [rows].
  etransitivity; [apply filter_length_le|]. now rewrite length_map.
Qed.

(** X4.  The long table has at most three rows for each row of the input,
    one for each tier, and at most two when the impact columns are not all
    present. *)
Theorem long_length_bound (mean : list cell -> spec_float) (raw : DataFrame)
        (g : Globals) :
  build mean raw = Ok g ->
  (List.length (rows (long g)) <= 3 * List.length (rows raw))%nat
  /\ (forallb (has_col raw) imp_required = false ->
      (List.length (rows (long g)) <= 2 * List.length (rows raw))%nat).
Proof.
  intros B. destruct (build_inv _ _ _ B) as [L _].
  destruct (long_of_inv _ _ L) as [il [fl [ml [Hi [Hf [Hm E]]]]]].
  rewrite E. unfold concat. cbn [rows flat_map].
  rewrite !length_app, !length_map. cbn [List.length].
  assert (Li := tier_long_length _ _ _ _ _ _ Hi).
  assert (Lf := tier_long_length _ _ _ _ _ _ Hf).
  rewrite rows_clean_length in Li, Lf.
  unfold imp_long in Hm. split.
  - destruct (forallb _ _).
    + assert (Lm := tier_long_length _ _ _ _ _ _ Hm).
      rewrite rows_clean_length in Lm. lia.
    + injection Hm as <-. cbn. lia.
  - intros Habs.
    assert (Hc : forallb (has_col (clean_columns raw)) imp_required = false).
    { unfold imp_required in *. cbn [forallb] in *.
      now rewrite !has_col_clean. }
    rewrite Hc in Hm. injection Hm as <-. cbn. lia.
Qed.

Lemma long_length_bound_witness :
  build naive_mean example_df = Ok example_globals
  /\ forallb (has_col example_df) imp_required = false
  /\ (List.length (rows (long example_globals))
      <= 2 * List.length (rows example_df))%nat.
Proof.
  split; [exact example_built|]. split; [reflexivity|].
  exact (proj2 (long_length_bound naive_mean example_df example_globals
                                  example_built) eq_refl).
Defined.

(** ** Values in order of first appearance *)

Section Unique.

Variable A : Type.
Variable eqb : A -> A -> bool.
Hypothesis eqb_eq : forall x y, eqb x y = true <-> x = y.

Lemma unique_In (l : list A) (x : A) : In x (unique eqb l) <-> In x l.
Proof.
  induction l as [|y l IH]; cbn; [tauto|].
  rewrite filter_In, IH, negb_true_iff. split.
  - intros [H | [H _]]; auto.
  - intros [H | H]; [now left|].
    destruct (eqb y x) eqn:E; [left; now apply eqb_eq | right; now split].
Qed.

Lemma unique_NoDup (l : list A) : NoDup (unique eqb l).
Proof.
  induction l as [|y l IH]; cbn; constructor.
  - rewrite filter_In. intros [_ H]. apply negb_true_iff in H.
    assert (eqb y y = true) by now apply eqb_eq. congruence.
  - now apply NoDup_filter.
Qed.

End Unique.

Lemma first_seen_l1_In (a : list AggRow) (l : cell) :
  In l (first_seen_l1 a) <->
  isna l = false /\ exists r, In r a /\ agg_L1 r = l.
Proof.
  unfold first_seen_l1. rewrite (unique_In _ _ cell_eqb_eq), filter_In.
  rewrite in_map_iff, negb_true_iff. split.
  - intros [[r [E Hr]] H]. split; [assumption | now exists r].
  - intros [H [r [Hr E]]]. split; [now exists r | assumption].
Qed.

(** X5.  Each capability that is not missing has one place in [unique_l1],
    hence one header on the y axis. *)
Theorem unique_l1_members (py_repr : cell -> string) (a : list AggRow) :
  NoDup (unique_l1 py_repr a)
  /\ NoDup (first_seen_l1 a)
  /\ forall l : cell,
       In l (unique_l1 py_repr a) <->
       isna l = false /\ exists r, In r a /\ agg_L1 r = l.
Proof.
  assert (P : Permutation (unique_l1 py_repr a) (first_seen_l1 a))
    by apply partition_perm.
  assert (N : NoDup (first_seen_l1 a)) by apply (unique_NoDup _ _ cell_eqb_eq).
  repeat apply conj.
  - apply Permutation_NoDup with (first_seen_l1 a);
      [now apply Permutation_sym | exact N].
  - exact N.
  - intros l. rewrite <- first_seen_l1_In. split.
    + apply Permutation_in. exact P.
    + apply Permutation_in. now apply Permutation_sym.
Qed.

(** The cells of the key are never missing in the aggregate table. *)
Lemma agg_key_present (mean : list cell -> spec_float) (raw : DataFrame)
      (g : Globals) (r : AggRow) :
  build mean raw = Ok g -> In r (agg g) ->
  isna (agg_L1 r) = false /\ isna (agg_L2 r) = false
  /\ isna (outcome_name r) = false.
Proof.
  intros B Hr. destruct (agg_row_from_long _ _ _ _ B Hr) as [row [Hin K]].
  destruct (long_row_invariant _ _ _ _ B Hin)
    as [t [out [strength [sign [_ [_ [_ [_ [_ [H1 [H2 H3]]]]]]]]]]].
  unfold row_key, agg_key in K. injection K as K1 K2 _ K4.
  rewrite <- K1, <- K2, <- K4. auto.
Qed.

(** ** Every bubble has its place on both axes *)

(** X6.  For every row of the aggregate table, the y key is among the
    categories of the y axis and the x key among those of the x axis. *)
Theorem keys_on_axes (mean : list cell -> spec_float) (py_repr : cell -> string)
        (sort : (AggRow -> Z) -> list AggRow -> list AggRow)
        (raw : DataFrame) (g : Globals) (r : AggRow) :
  sorts sort -> build mean raw = Ok g -> In r (agg g) ->
  In (y_key py_repr r) (order_y py_repr sort (agg g))
  /\ In (x_key py_repr r) (order_x py_repr (agg g)).
Proof.
  intros S B Hr. split.
  - unfold order_y. apply in_flat_map. exists (agg_L1 r). split.
    + apply unique_l1_members. split.
      * exact (proj1 (agg_key_present _ _ _ _ B Hr)).
      * now exists r.
    + right. apply in_map. unfold sorted_group.
      apply (Permutation_in _ (Permutation_sym (proj1 (S _ _)))).
      apply filter_In. split; [assumption | now apply cell_eqb_eq].
  - destruct (agg_outcome_type _ _ _ _ B Hr) as [t [Ht Et]].
    unfold order_x. apply in_flat_map. exists t. split; [assumption|].
    right. unfold x_items_by_type, x_key. rewrite Et. cbn [py_str].
    apply (in_map (fun name => COL_PREFIX_X ++ t ++ SEP ++ name)).
    unfold subnames. apply (unique_In _ _ String.eqb_eq).
    apply (Permutation_in _ (Permutation_sym (isort_by_perm _ _))).
    apply (in_map (fun r => py_str py_repr (outcome_name r))).
    apply filter_In. split; [assumption|].
    unfold cell_is. rewrite Et. now apply cell_eqb_eq.
Qed.

Lemma keys_on_axes_witness :
  sorts stable_sort_values
  /\ build naive_mean example_df = Ok example_globals
  /\ In example_agg_row (agg example_globals)
  /\ In (y_key no_repr example_agg_row)
        (order_y no_repr stable_sort_values (agg example_globals))
  /\ In (x_key no_repr example_agg_row) (order_x no_repr (agg example_globals)).
Proof.
  split; [exact stable_sort_values_sorts|].
  split; [exact example_built|]. split; [exact example_agg_row_In|].
  exact (keys_on_axes naive_mean no_repr stable_sort_values example_df
                      example_globals example_agg_row stable_sort_values_sorts
                      example_built example_agg_row_In).
Defined.

(** ** Lengths of the axes and height of the figure *)

Lemma length_flat_map_sum {A B : Type} (f : A -> list B) (l : list A) :
  List.length (flat_map f l) = list_sum (map (fun x => List.length (f x)) l).
Proof.
  induction l as [|x l IH]; cbn; [reflexivity|].
  now rewrite length_app, IH.
Qed.

Lemma list_sum_S {A : Type} (f : A -> nat) (l : list A) :
  list_sum (map (fun x => S (f x)) l) = (List.length l + list_sum (map f l))%nat.
Proof.
  unfold list_sum. induction l as [|x l IH]; cbn; [reflexivity|].
  rewrite IH. lia.
Qed.

Lemma one_match (k : cell) (ks : list cell) :
  NoDup ks ->
  list_sum (map (fun k' => if cell_eqb k k' then 1 else 0)%nat ks)
  = if existsb (cell_eqb k) ks then 1%nat else 0%nat.
Proof.
  unfold list_sum. induction 1 as [|k' ks Hn ND IH]; cbn; [reflexivity|].
  rewrite IH. destruct (cell_eqb k k') eqn:E; cbn; [|reflexivity].
  apply cell_eqb_eq in E. subst k'.
  destruct (existsb (cell_eqb k) ks) eqn:X; [|reflexivity].
  apply existsb_exists in X as [k' [Hin E]]. apply cell_eqb_eq in E.
  subst k'. contradiction.
Qed.

(** The groups of the keys [ks] share out the elements whose key is
    among [ks]. *)
Lemma count_by_key {A : Type} (key : A -> cell) (ks : list cell) (l : list A) :
  NoDup ks ->
  list_sum (map (fun k => List.length (filter (fun x => cell_eqb (key x) k) l)) ks)
  = List.length (filter (fun x => existsb (cell_eqb (key x)) ks) l).
Proof.
  intros ND. induction l as [|x l IH].
  - cbn. unfold list_sum. induction ks; cbn; [reflexivity|].
    inversion ND; subst. auto.
  - cbn [filter].
    assert (E : list_sum
                  (map (fun k => List.length
                                   (if cell_eqb (key x) k
                                    then x :: filter (fun x0 => cell_eqb (key x0) k) l
                                    else filter (fun x0 => cell_eqb (key x0) k) l))
                       ks)
                = (list_sum (map (fun k' => if cell_eqb (key x) k' then 1 else 0)%nat ks)
                   + list_sum (map (fun k => List.length
                                               (filter (fun x0 => cell_eqb (key x0) k) l))
                                   ks))%nat).
    { clear. unfold list_sum. induction ks as [|k ks IHk]; cbn; [reflexivity|].
      rewrite IHk. destruct (cell_eqb (key x) k); cbn; lia. }
    rewrite E, IH, one_match by assumption.
    destruct (existsb (cell_eqb (key x)) ks); cbn; lia.
Qed.

Lemma filter_ext_In {A : Type} (p q : A -> bool) (l : list A) :
  (forall x, In x l -> p x = q x) -> filter p l = filter q l.
Proof.
  induction l as [|x l IH]; intros H; cbn; [reflexivity|].
  rewrite (H x) by now left. rewrite IH; [reflexivity|].
  intros y Hy. apply H. now right.
Qed.

Lemma order_y_length (py_repr : cell -> string)
      (sort : (AggRow -> Z) -> list AggRow -> list AggRow) (a : list AggRow) :
  sorts sort ->
  List.length (order_y py_repr sort a)
  = (List.length (unique_l1 py_repr a)
     + List.length (filter (fun r => negb (isna (agg_L1 r))) a))%nat.
Proof.
  intros Hs. unfold order_y. rewrite length_flat_map_sum.
  rewrite (map_ext _ (fun l1 => S (List.length
                                     (filter (fun r => cell_eqb (agg_L1 r) l1) a)))).
  2:{ intros l1. cbn [List.length]. rewrite length_map. f_equal.
      unfold sorted_group. apply Permutation_length. apply Hs. }
  rewrite list_sum_S. f_equal.
  rewrite (count_by_key agg_L1) by apply unique_l1_members.
  f_equal. apply filter_ext_In. intros r Hr.
  destruct (isna (agg_L1 r)) eqn:E; cbn.
  - destruct (existsb _ _) eqn:X; [|reflexivity].
    apply existsb_exists in X as [l [Hl El]]. apply cell_eqb_eq in El. subst l.
    apply unique_l1_members in Hl as [Hl _]. congruence.
  - apply existsb_exists. exists (agg_L1 r). split; [|now apply cell_eqb_eq].
    apply unique_l1_members. split; [assumption | now exists r].
Qed.

(** X7.  The y axis has one entry for each capability and one for each
    row of the aggregate table, and as many tick texts as tick values; so
    has the x axis.  The height of the figure is 120 plus 24 for each
    entry of the y axis, between 144 and 1400. *)
Theorem axes_lengths (mean : list cell -> spec_float)
        (wrap : string -> Z -> list string) (py_repr : cell -> string)
        (sort : (AggRow -> Z) -> list AggRow -> list AggRow)
        (raw : DataFrame) (g : Globals) :
  sorts sort -> build mean raw = Ok g ->
  List.length (order_y py_repr sort (agg g))
  = (List.length (unique_l1 py_repr (agg g)) + List.length (agg g))%nat
  /\ List.length (y_ticktext wrap py_repr sort (agg g))
     = List.length (order_y py_repr sort (agg g))
  /\ List.length (x_ticktext wrap py_repr (agg g))
     = List.length (order_x py_repr (agg g))
  /\ (144 <= fig_height py_repr sort (agg g) <= 1400)%Z
  /\ (agg g <> [] ->
      fig_height py_repr sort (agg g)
      = Z.min 1400 (120 + 24 * (Z.of_nat (List.length (unique_l1 py_repr (agg g)))
                                + Z.of_nat (List.length (agg g)))))%Z.
Proof.
  intros Hs B.
  assert (Ly : List.length (order_y py_repr sort (agg g))
               = (List.length (unique_l1 py_repr (agg g))
                  + List.length (agg g))%nat).
  { rewrite (order_y_length _ _ _ Hs). f_equal. f_equal.
    transitivity (filter (fun _ => true) (agg g)).
    - apply filter_ext_In. intros r Hr.
      now rewrite (proj1 (agg_key_present _ _ _ _ B Hr)).
    - clear. induction (agg g) as [|x l IH]; cbn; [reflexivity | now rewrite IH]. }
  repeat apply conj.
  - exact Ly.
  - unfold y_ticktext, order_y. rewrite !length_flat_map_sum.
    f_equal. apply map_ext. intros l1. cbn. now rewrite !length_map.
  - unfold x_ticktext, order_x. rewrite !length_flat_map_sum.
    f_equal. apply map_ext. intros t. cbn. unfold x_items_by_type.
    now rewrite !length_map.
  - unfold fig_height, n_rows. lia.
  - unfold fig_height, n_rows. lia.
  - intros NE. unfold fig_height, n_rows. rewrite Ly.
    destruct (agg g); [congruence|]. cbn [List.length]. lia.
Qed.

Lemma axes_lengths_witness :
  sorts stable_sort_values
  /\ build naive_mean example_df = Ok example_globals
  /\ List.length (order_y no_repr stable_sort_values (agg example_globals))
     = (List.length (unique_l1 no_repr (agg example_globals))
        + List.length (agg example_globals))%nat
  /\ List.length (order_y no_repr stable_sort_values (agg example_globals)) = 6%nat
  /\ fig_height no_repr stable_sort_values (agg example_globals) = 264%Z.
Proof.
  split; [exact stable_sort_values_sorts|]. split; [exact example_built|].
  split; [|split; reflexivity].
  exact (proj1 (axes_lengths naive_mean (fun s _ => [s]) no_repr
                             stable_sort_values example_df example_globals
                             stable_sort_values_sorts example_built)).
Defined.

(** ** Order of the outcome names on the x axis *)

Lemma string_compare_lt_trans (a b c : string) :
  String.compare a b = Lt -> String.compare b c = Lt -> String.compare a c = Lt.
Proof.
  revert b c. induction a as [|x a IH]; intros [|y b] [|z c]; cbn;
    try discriminate; try reflexivity.
  unfold Ascii.compare.
  destruct (N.compare_spec (N_of_ascii x) (N_of_ascii y)) as [E1|L1|G1];
    try discriminate;
    destruct (N.compare_spec (N_of_ascii y) (N_of_ascii z)) as [E2|L2|G2];
    try discriminate; intros H1 H2.
  - rewrite E1, E2, N.compare_refl. now apply IH with b.
  - rewrite E1. now apply N.compare_lt_iff in L2 as ->.
  - rewrite <- E2. now apply N.compare_lt_iff in L1 as ->.
  - assert (L : (N_of_ascii x < N_of_ascii z)%N) by lia.
    now apply N.compare_lt_iff in L as ->.
Qed.

Lemma string_leb_trans (a b c : string) :
  String.leb a b = true -> String.leb b c = true -> String.leb a c = true.
Proof.
  unfold String.leb.
  destruct (String.compare a b) eqn:E1; try discriminate;
    destruct (String.compare b c) eqn:E2; try discriminate; intros _ _.
  - apply String.compare_eq_iff in E1. subst b. now rewrite E2.
  - apply String.compare_eq_iff in E1. subst b. now rewrite E2.
  - apply String.compare_eq_iff in E2. subst c. now rewrite E1.
  - now rewrite (string_compare_lt_trans _ _ _ E1 E2).
Qed.

Lemma string_ltb_iff (a b : string) :
  String.ltb a b = true <-> String.leb a b = true /\ a <> b.
Proof.
  unfold String.ltb, String.leb.
  destruct (String.compare a b) eqn:E; split; try discriminate;
    try (intros [H _]; discriminate H).
  - intros [_ N]. apply String.compare_eq_iff in E. contradiction.
  - intros _. split; [reflexivity|]. intros ->.
    assert (H := String.compare_antisym b b). rewrite E in H. discriminate H.
  - reflexivity.
Qed.

Lemma insert_string_sorted (x : string) (l : list string) :
  StronglySorted (fun a b => String.leb a b = true) l ->
  StronglySorted (fun a b => String.leb a b = true) (insert_by String.leb x l).
Proof.
  induction 1 as [|y l S IH F]; cbn.
  - repeat constructor.
  - destruct (String.leb x y) eqn:L.
    + constructor; [now constructor|].
      constructor; [assumption|].
      rewrite Forall_forall in *. intros z Hz.
      apply string_leb_trans with y; auto.
    + constructor; [assumption|].
      rewrite Forall_forall in *. intros z Hz.
      apply (Permutation_in _ (insert_by_perm _ x l)) in Hz.
      destruct Hz as [<- | Hz]; [|now apply F].
      destruct (String.leb_total x y) as [H | H]; congruence.
Qed.

Lemma isort_string_sorted (l : list string) :
  StronglySorted (fun a b => String.leb a b = true) (isort_by String.leb l).
Proof.
  unfold isort_by. induction l as [|x l IH]; cbn; [constructor|].
  now apply insert_string_sorted.
Qed.

Lemma StronglySorted_filter {A : Type} (R : A -> A -> Prop) (p : A -> bool)
      (l : list A) :
  StronglySorted R l -> StronglySorted R (filter p l).
Proof.
  induction 1 as [|x l S IH F]; cbn; [constructor|].
  destruct (p x); [|assumption].
  constructor; [assumption|].
  rewrite Forall_forall in *. intros y Hy. apply filter_In in Hy as [Hy _].
  now apply F.
Qed.

Lemma unique_strictly_sorted (l : list string) :
  StronglySorted (fun a b => String.leb a b = true) l ->
  StronglySorted (fun a b => String.ltb a b = true) (unique String.eqb l).
Proof.
  induction 1 as [|x l S IH F]; cbn; constructor.
  - now apply StronglySorted_filter.
  - rewrite Forall_forall in *. intros y Hy.
    apply filter_In in Hy as [Hy N]. apply negb_true_iff in N.
    apply (proj1 (unique_In _ _ String.eqb_eq l y)) in Hy.
    apply string_ltb_iff. split; [now apply F|].
    intros ->. now rewrite String.eqb_refl in N.
Qed.

Lemma cell_is_spec (c : cell) (s : string) : cell_is c s = true <-> c = Str s.
Proof. unfold cell_is. apply cell_eqb_eq. Qed.

(** X8.  Inside a tier, the outcome names of the x axis stand in strictly
    ascending order of their text, so that none occurs twice, and they are
    the names of the rows of the aggregate table that belong to the
    tier. *)
Theorem subnames_sorted (py_repr : cell -> string) (a : list AggRow) (t : string) :
  StronglySorted (fun x y => String.ltb x y = true) (subnames py_repr a t)
  /\ NoDup (subnames py_repr a t)
  /\ forall name : string,
       In name (subnames py_repr a t) <->
       exists r, In r a /\ outcome_type r = Str t
                 /\ py_str py_repr (outcome_name r) = name.
Proof.
  repeat apply conj.
  - apply unique_strictly_sorted, isort_string_sorted.
  - apply (unique_NoDup _ _ String.eqb_eq).
  - intros name. unfold subnames. rewrite (unique_In _ _ String.eqb_eq). split.
    + intros H. apply (Permutation_in _ (isort_by_perm _ _)) in H.
      apply in_map_iff in H as [r [E Hr]]. apply filter_In in Hr as [Hr Ht].
      apply cell_is_spec in Ht. now exists r.
    + intros [r [Hr [Ht E]]].
      apply (Permutation_in _ (Permutation_sym (isort_by_perm _ _))).
      apply in_map_iff. exists r. split; [assumption|].
      apply filter_In. split; [assumption | now apply cell_is_spec].
Qed.

Lemma subnames_sorted_witness :
  subnames no_repr (agg example_globals) INTERMEDIATE = ["Better reporting"]
  /\ In example_agg_row (agg example_globals)
  /\ outcome_type example_agg_row = Str FINAL
  /\ In "Reduced AMR incidence" (subnames no_repr (agg example_globals) FINAL).
Proof.
  split; [vm_compute; reflexivity|]. split; [exact example_agg_row_In|].
  split; [reflexivity|].
  exact (proj2 (proj2 (proj2 (subnames_sorted no_repr (agg example_globals) FINAL))
                      "Reduced AMR incidence")
               (ex_intro _ example_agg_row
                         (conj example_agg_row_In (conj eq_refl eq_refl)))).
Defined.

Lemma unique_l1_members_witness :
  isna (Str "Governance") = false
  /\ In example_agg_row (agg example_globals)
  /\ In (agg_L1 example_agg_row) (unique_l1 no_repr (agg example_globals)).
Proof.
  split; [reflexivity|]. split; [exact example_agg_row_In|].
  exact (proj2 (proj2 (proj2 (unique_l1_members no_repr (agg example_globals)))
                      (agg_L1 example_agg_row))
               (conj eq_refl
                     (ex_intro _ example_agg_row
                               (conj example_agg_row_In eq_refl)))).
Defined.

(** ** Errors of the detail resolver *)

Lemma prefix_decompose (p k : string) :
  String.prefix p k = true -> k = p ++ drop (String.length p) k.
Proof.
  revert k. induction p as [|c p IH]; intros k H; [reflexivity|].
  destruct k as [|d k]; [discriminate|]. cbn in H |- *.
  destruct (ascii_dec c d) as [->|]; [|discriminate].
  f_equal. now apply IH.
Qed.


Lemma split1_found (sep s a b : string) :
  split1 sep s = [a; b] -> contains s sep = true.
Proof.
  intros H. rewrite (split1_sound _ _ _ _ H). apply contains_append.
Qed.







(** ** Records of the detail table *)

Lemma Forall2_refl {A : Type} (R : A -> A -> Prop) (l : list A) :
  (forall x, R x x) -> Forall2 R l l.
Proof. intros H. induction l; constructor; auto. Qed.

Lemma Forall2_weaken {A B : Type} (R R' : A -> B -> Prop) (l : list A) (l' : list B) :
  (forall x y, R x y -> R' x y) -> Forall2 R l l' -> Forall2 R' l l'.
Proof. intros H. induction 1; constructor; auto. Qed.

Lemma Forall2_map_left {A B C : Type} (R : B -> C -> Prop) (f : A -> B)
      (l : list A) (l' : list C) :
  Forall2 R (map f l) l' -> Forall2 (fun x y => R (f x) y) l l'.
Proof.
  revert l'. induction l as [|x l IH]; intros l' H; inversion H; subst;
    constructor; auto.
Qed.

Lemma Forall2_In_right {A B : Type} (R : A -> B -> Prop) (l : list A) (l' : list B)
      (y : B) :
  Forall2 R l l' -> In y l' -> exists x, In x l /\ R x y.
Proof.
  induction 1 as [|x y' l l' H F IH]; intros Hy; [destruct Hy|].
  destruct Hy as [<- | Hy].
  - exists x. split; [now left | assumption].
  - destruct (IH Hy) as [x' [Hx' Hr]]. exists x'. split; [now right | assumption].
Qed.

Lemma mem_cons_other (c c0 : string) (cs : list string) :
  c <> c0 -> mem c (c0 :: cs) = mem c cs.
Proof.
  intros N. unfold mem. cbn. now rewrite (proj2 (String.eqb_neq c c0) N).
Qed.

(** The loop that adds the display columns the table does not have: a
    cell of a column of the table is kept, a cell of an added column is
    missing. *)
Lemma fill_rows (cols : list string) (d : DataFrame) :
  Forall2 (fun r r' : Row =>
             forall c, get r' c = if has_col d c then get r c
                                  else if mem c cols then NA else get r c)
          (rows d)
          (rows (fold_left
                   (fun d c => if has_col d c then d else assign d c (fun _ => NA))
                   cols d)).
Proof.
  revert d. induction cols as [|c0 cols IH]; intros d; cbn [fold_left].
  - apply Forall2_refl. intros r c. now destruct (has_col d c).
  - destruct (has_col d c0) eqn:H0.
    + eapply Forall2_weaken; [|apply IH]. cbn beta. intros r r' R c.
      rewrite R. destruct (has_col d c) eqn:Hc; [reflexivity|].
      rewrite mem_cons_other; [reflexivity|]. intros ->. congruence.
    + specialize (IH (assign d c0 (fun _ => NA))).
      rewrite rows_assign in IH. apply Forall2_map_left in IH.
      eapply Forall2_weaken; [|exact IH]. cbn beta. intros r r' R c.
      rewrite R, has_col_assign.
      destruct (String.eqb_spec c c0) as [->|N].
      * rewrite H0. cbn [orb]. rewrite get_set_cell_same.
        unfold mem. cbn. now rewrite String.eqb_refl.
      * rewrite orb_false_r, get_set_cell_other by congruence.
        now rewrite mem_cons_other.
Qed.

Lemma reindex_keys (cols : list string) (r : Row) : map fst (reindex cols r) = cols.
Proof.
  unfold reindex. rewrite map_map. cbn. apply map_id.
Qed.

(** X10.  Every record that the resolver returns has the thirteen display
    columns, in their order.  It comes from a row of the long table whose
    level 1, level 2, outcome type and outcome name are the four texts
    parsed from the keys: it holds the cell of that row in every display
    column that the long table has, and a missing value in the others. *)
Theorem show_details_records (l : DataFrame) (click : option (string * string))
        (recs : list Row) (title : string) (rec : Row) :
  show_details l click = Ok (recs, title) -> In rec recs ->
  map fst rec = cols_show
  /\ exists x y o_type o_name l1 l2 row,
       click = Some (x, y)
       /\ parse_key COL_PREFIX_X x = Ok (o_type, o_name)
       /\ parse_key ROW_PREFIX_Y y = Ok (l1, l2)
       /\ In row (rows l)
       /\ row_key row = (Str l1, Str l2, Str o_type, Str o_name)
       /\ forall c, In c cols_show ->
                    get rec c = if has_col l c then get row c else NA.
Proof.
  unfold show_details. destruct click as [[x y]|].
  2:{ intros H. injection H as <- _. intros []. }
  destruct (negb _).
  { intros H. injection H as <- _. intros []. }
  destruct (parse_key COL_PREFIX_X x) as [[o_type o_name]|] eqn:Px;
    [|discriminate].
  destruct (parse_key ROW_PREFIX_Y y) as [[l1 l2]|] eqn:Py; [|discriminate].
  cbn [bind]. destruct (check_columns l); [|discriminate]. cbn [bind].
  cbv zeta. intros H.
  assert (E : map (reindex cols_show)
                  (rows (fold_left
                           (fun d c => if has_col d c then d
                                       else assign d c (fun _ => NA))
                           cols_show
                           (mkDF (columns l)
                                 (filter (mask l1 l2 o_type o_name) (rows l)))))
              = recs) by congruence.
  clear H. subst recs. intros Hrec.
  apply in_map_iff in Hrec as [r' [<- Hr']].
  split; [apply reindex_keys|].
  destruct (Forall2_In_right _ _ _ _
              (fill_rows cols_show
                 (mkDF (columns l) (filter (mask l1 l2 o_type o_name) (rows l))))
              Hr') as [row [Hrow R]].
  cbn [rows] in Hrow. apply filter_In in Hrow as [Hrow M].
  exists x, y, o_type, o_name, l1, l2, row.
  split; [reflexivity|]. split; [exact Px|]. split; [exact Py|].
  split; [exact Hrow|].
  split; [exact (proj1 (mask_spec l1 l2 o_type o_name row) M)|].
  intros c Hc.
  rewrite (get_reindex cols_show r' c (proj2 (mem_In c cols_show) Hc)).
  rewrite (R c). unfold has_col. cbn [columns].
  destruct (mem c (columns l)); [reflexivity|].
  rewrite (proj2 (mem_In c cols_show) Hc). reflexivity.
Qed.

Lemma show_details_records_witness :
  exists recs title rec,
    show_details (long example_globals)
                 (Some (x_key no_repr example_agg_row, y_key no_repr example_agg_row))
    = Ok (recs, title)
    /\ In rec recs
    /\ map fst rec = cols_show
    /\ get rec COL_TITLE = Str "A"
    /\ get rec COL_IMP_TEXT = NA.
Proof.
  destruct (show_details (long example_globals)
              (Some (x_key no_repr example_agg_row, y_key no_repr example_agg_row)))
    as [[recs title]|] eqn:E; [|vm_compute in E; discriminate E].
  assert (H := E). vm_compute in H. injection H as Hr _.
  exists recs, title, (hd [] recs).
  assert (Hin : In (hd [] recs) recs) by (rewrite <- Hr; left; reflexivity).
  split; [reflexivity|]. split; [exact Hin|].
  split; [exact (proj1 (show_details_records _ _ _ _ _ E Hin))|].
  rewrite <- Hr. split; reflexivity.
Defined.

(** ** The direction label: no gap inside [-1, 1] *)

Lemma SFcompare_total (x y : spec_float) :
  F64.is_nan x = false -> F64.is_nan y = false ->
  exists c, SFcompare x y = Some c.
Proof.
  destruct x as [sx|sx| |sx mx ex], y as [sy|sy| |sy my ey];
    cbn; try discriminate; intros _ _; eexists; reflexivity.
Qed.

Lemma SFcompare_antisym (x y : spec_float) :
  SFcompare y x = option_map CompOpp (SFcompare x y).
Proof.
  destruct x as [sx|sx| |sx mx ex], y as [sy|sy| |sy my ey];
    cbn [SFcompare option_map]; try reflexivity;
    try destruct sx; try destruct sy; try reflexivity;
    change (Pos.compare_cont Eq) with Pos.compare;
    rewrite (Z.compare_antisym ex ey), (Pos.compare_antisym mx my);
    destruct (Z.compare ex ey); cbn; try reflexivity;
    destruct (Pos.compare mx my); reflexivity.
Qed.

Lemma not_ltb_leb (x y : spec_float) :
  F64.is_nan x = false -> F64.is_nan y = false ->
  SFltb x y = false -> SFleb y x = true.
Proof.
  intros Nx Ny. destruct (SFcompare_total x y Nx Ny) as [c E].
  unfold SFltb, SFleb. rewrite (SFcompare_antisym x y), E. cbn.
  now destruct c.
Qed.

Lemma not_leb_ltb (x y : spec_float) :
  F64.is_nan x = false -> F64.is_nan y = false ->
  SFleb x y = false -> SFltb y x = true.
Proof.
  intros Nx Ny. destruct (SFcompare_total x y Nx Ny) as [c E].
  unfold SFltb, SFleb. rewrite (SFcompare_antisym x y), E. cbn.
  now destruct c.
Qed.

Lemma leb_neq_ltb (x y : spec_float) :
  SFleb x y = true -> SFeqb x y = false -> SFltb x y = true.
Proof.
  unfold SFleb, SFeqb, SFltb. now destruct (SFcompare x y) as [[ | | ]|].
Qed.

Lemma geb_neq_gtb (x y : spec_float) :
  SFleb y x = true -> SFeqb x y = false -> SFltb y x = true.
Proof.
  unfold SFleb, SFeqb, SFltb. rewrite (SFcompare_antisym x y).
  now destruct (SFcompare x y) as [[ | | ]|].
Qed.

(** X11.  [map_direction_label] leaves a number without label exactly when
    the number is below -1 or above 1: the five intervals cover [-1, 1]
    without a gap.  Every label it gives, apart from "N/A", is in the
    order of the legend and has a colour. *)
Theorem map_direction_label_gaps (x : spec_float) :
  (map_direction_label x = None <->
   (x < c_m1_0)%f64 = true \/ (c_1_0 < x)%f64 = true)
  /\ (forall l : string,
        map_direction_label x = Some l ->
        l = "N/A"
        \/ (In l DIR_ORDER /\ exists colour, dict_get DIR_COLORS l = Some colour)).
Proof.
  split; [split|].
  - intros H. unfold map_direction_label in H.
    destruct (isna_float x) eqn:Nx; [discriminate|].
    unfold F64.eq, F64.lt, F64.le in *.
    destruct (SFltb x c_m1_0) eqn:Lo; [now left|].
    destruct (SFltb c_1_0 x) eqn:Hi; [now right|].
    exfalso.
    assert (G1 : SFleb c_m1_0 x = true) by (apply not_ltb_leb; auto).
    assert (G2 : SFleb x c_1_0 = true) by (apply not_ltb_leb; auto).
    destruct (SFeqb x c_1_0) eqn:E1; [discriminate|].
    assert (L1 : SFltb x c_1_0 = true) by now apply leb_neq_ltb.
    rewrite L1, andb_true_r in H.
    destruct (SFltb c_0_5 x) eqn:T3; [discriminate|].
    assert (L2 : SFleb x c_0_5 = true) by (apply not_ltb_leb; auto).
    rewrite L2, andb_true_r in H.
    destruct (SFltb c_m0_5 x) eqn:T4; [discriminate|].
    assert (L3 : SFleb x c_m0_5 = true) by (apply not_ltb_leb; auto).
    rewrite L3, andb_true_r in H.
    destruct (SFltb c_m1_0 x) eqn:T5; [discriminate|].
    destruct (SFeqb x c_m1_0) eqn:E2; [discriminate|].
    assert (L4 : SFltb c_m1_0 x = true) by now apply geb_neq_gtb.
    congruence.
  - intros [U | L]; unfold map_direction_label.
    + rewrite compared_not_nan by (exists c_m1_0; unfold F64.lt in U; tauto).
      label_case.
    + rewrite compared_not_nan by (exists c_1_0; unfold F64.lt in L; tauto).
      label_case.
  - intros l. unfold map_direction_label.
    destruct (isna_float x); [intros H; injection H as <-; now left|].
    destruct (x == c_1_0)%f64;
      [intros H; injection H as <-; right; split; [cbn; tauto | eexists; reflexivity]|].
    destruct ((c_0_5 < x)%f64 && (x < c_1_0)%f64);
      [intros H; injection H as <-; right; split; [cbn; tauto | eexists; reflexivity]|].
    destruct ((c_m0_5 < x)%f64 && (x <= c_0_5)%f64);
      [intros H; injection H as <-; right; split; [cbn; tauto | eexists; reflexivity]|].
    destruct ((c_m1_0 < x)%f64 && (x <= c_m0_5)%f64);
      [intros H; injection H as <-; right; split; [cbn; tauto | eexists; reflexivity]|].
    destruct (x == c_m1_0)%f64;
      [intros H; injection H as <-; right; split; [cbn; tauto | eexists; reflexivity]|].
    discriminate.
Qed.

Lemma map_direction_label_gaps_witness :
  (c_1_0 < f_2)%f64 = true /\ map_direction_label f_2 = None
  /\ map_direction_label f_0_75 = Some "mostly positive"
  /\ (In "mostly positive" DIR_ORDER
      /\ exists colour, dict_get DIR_COLORS "mostly positive" = Some colour).
Proof.
  split; [reflexivity|].
  split; [exact (proj2 (proj1 (map_direction_label_gaps f_2))
                       (or_intror eq_refl))|].
  split; [reflexivity|].
  destruct (proj2 (map_direction_label_gaps f_0_75) "mostly positive" eq_refl)
    as [H | H]; [discriminate H | exact H].
Defined.

(** ** The strength label follows the number *)

(** X12.  The strength label is monotone: a greater mean strength never
    gets a lower label on the scale very low, low, low-moderate, moderate,
    high. *)
Theorem map_strength_label_monotone (x y : spec_float) :
  (x <= y)%f64 = true ->
  (strength_rank (map_strength_label x) <= strength_rank (map_strength_label y))%nat.
Proof.
  unfold F64.le. intros L.
  assert (Nx : isna_float x = false) by (apply compared_not_nan; exists y; tauto).
  assert (Ny : isna_float y = false) by (apply compared_not_nan; exists x; tauto).
  assert (M : forall c, SFleb c x = true -> SFleb c y = true)
    by (intros c H; now apply SFleb_trans with x).
  unfold map_strength_label, F64.ge. rewrite Nx, Ny.
  destruct (SFleb c_2_6 x) eqn:A1; [rewrite (M _ A1); cbn; lia|].
  destruct (SFleb c_2_4 x) eqn:A2;
    [rewrite (M _ A2); destruct (SFleb c_2_6 y); cbn; lia|].
  destruct (SFleb c_1_5 x) eqn:A3;
    [rewrite (M _ A3); destruct (SFleb c_2_6 y), (SFleb c_2_4 y); cbn; lia|].
  destruct (SFleb c_1_0 x) eqn:A4;
    [rewrite (M _ A4);
     destruct (SFleb c_2_6 y), (SFleb c_2_4 y), (SFleb c_1_5 y); cbn; lia|].
  destruct (SFleb c_2_6 y), (SFleb c_2_4 y), (SFleb c_1_5 y), (SFleb c_1_0 y);
    cbn; lia.
Qed.

Lemma map_strength_label_monotone_witness :
  (f_2 <= f_3)%f64 = true
  /\ (strength_rank (map_strength_label f_2)
      <= strength_rank (map_strength_label f_3))%nat
  /\ map_strength_label f_2 = "low-moderate" /\ map_strength_label f_3 = "high".
Proof.
  split; [reflexivity|].
  split; [exact (map_strength_label_monotone f_2 f_3 eq_refl)|].
  split; reflexivity.
Defined.

(** ** The number at the head of a level-2 label *)



(** ** The title of a level-1 group *)

Lemma replace_absent (old new s : string) :
  contains s old = false -> replace_from 0 old new s = s.
Proof.
  induction s as [|c s IH]; [reflexivity|].
  cbn [contains replace_from]. intros H.
  apply orb_false_iff in H as [-> H]. now rewrite (IH H).
Qed.

Lemma replace_skip (p old new s : string) :
  replace_from (String.length p) old new (p ++ s) = replace_from 0 old new s.
Proof.
  induction p as [|c p IH]; [reflexivity|]. cbn. exact IH.
Qed.

(** X14.  Taking the prefix of the headers out of a header key gives back
    the name of the capability, provided the name does not itself contain
    "__HDR__" (every occurrence is taken out, not only the first). *)
Theorem l1_text_roundtrip (py_repr : cell -> string) (l1 : cell) :
  contains (py_str py_repr l1) HDR_PREFIX_Y = false ->
  l1_text (HDR_PREFIX_Y ++ py_str py_repr l1) = py_str py_repr l1.
Proof.
  intros H. unfold l1_text, replace.
  change (HDR_PREFIX_Y ++ py_str py_repr l1)
    with (String "_" ("_HDR__" ++ py_str py_repr l1)).
  cbn [replace_from].
  change (String "_" ("_HDR__" ++ py_str py_repr l1))
    with (HDR_PREFIX_Y ++ py_str py_repr l1).
  rewrite prefix_append.
  change (String.length HDR_PREFIX_Y - 1)%nat with (String.length "_HDR__").
  rewrite replace_skip. cbn [append]. now apply replace_absent.
Qed.

Lemma l1_text_roundtrip_witness :
  contains (py_str no_repr (Str "Governance")) HDR_PREFIX_Y = false
  /\ l1_text (HDR_PREFIX_Y ++ py_str no_repr (Str "Governance")) = "Governance"
  /\ l1_text (HDR_PREFIX_Y ++ "Labs __HDR__ old") = "Labs  old".
Proof.
  split; [reflexivity|]. split; [|reflexivity].
  exact (l1_text_roundtrip no_repr (Str "Governance") eq_refl).
Defined.

(** ** Wrapping of the tick labels *)

Lemma concat_cons (sep x : string) (l : list string) :
  l <> [] -> String.concat sep (x :: l) = x ++ sep ++ String.concat sep l.
Proof. destruct l; [congruence | reflexivity]. Qed.

Lemma concat_join_tail (sep : string) (a b : list string) :
  b <> [] ->
  String.concat sep (a ++ [String.concat sep b])%list
  = String.concat sep (a ++ b)%list.
Proof.
  intros Hb. induction a as [|x a IH]; [reflexivity|].
  cbn [app]. rewrite !concat_cons.
  - now rewrite IH.
  - destruct a; [assumption | discriminate].
  - destruct a; discriminate.
Qed.

(** X15.  With at least one line allowed, [wrap_lines] joins at most
    [max_lines] lines, and it loses no text: the lines beyond the limit
    are put on the last one, separated by blanks. *)
Theorem wrapped_lines_spec (wrap : string -> Z -> list string)
        (py_repr : cell -> string) (s : cell) (width max_lines : Z) :
  (1 <= max_lines)%Z ->
  List.length (wrapped_lines wrap py_repr s width max_lines)
  = Nat.min (List.length
               (wrap (if isna s then EmptyString else py_str py_repr s) width))
            (Z.to_nat max_lines)
  /\ String.concat " " (wrapped_lines wrap py_repr s width max_lines)
     = String.concat " "
         (wrap (if isna s then EmptyString else py_str py_repr s) width).
Proof.
  intros Hm. unfold wrapped_lines.
  set (lines := wrap (if isna s then EmptyString else py_str py_repr s) width).
  destruct (Z.gtb_spec (Z.of_nat (List.length lines)) max_lines) as [G | G].
  - unfold slice_to, slice_from, slice_index.
    destruct (Z.ltb_spec (max_lines - 1) 0) as [N | N]; [lia|].
    assert (K : (Z.to_nat (max_lines - 1) < List.length lines)%nat) by lia.
    split.
    + rewrite length_app, length_firstn. cbn [List.length]. lia.
    + rewrite concat_join_tail.
      * now rewrite firstn_skipn.
      * intros E. assert (L := length_skipn (Z.to_nat (max_lines - 1)) lines).
        rewrite E in L. cbn in L. lia.
  - split; [lia | reflexivity].
Qed.

Lemma wrapped_lines_spec_witness :
  (1 <= 3)%Z
  /\ wrapped_lines (fun _ _ => ["a"; "b"; "c"; "d"]) no_repr (Str "a b c d") 1 3
     = ["a"; "b"; "c d"]
  /\ List.length
       (wrapped_lines (fun _ _ => ["a"; "b"; "c"; "d"]) no_repr (Str "a b c d") 1 3)
     = Nat.min 4 (Z.to_nat 3).
Proof.
  split; [lia|]. split; [reflexivity|].
  exact (proj1 (wrapped_lines_spec (fun _ _ => ["a"; "b"; "c"; "d"]) no_repr
                                   (Str "a b c d") 1 3 ltac:(lia))).
Defined.

(** ** Cleaning of the classification cells *)

Lemma join_cons (c : string) (l : list string) : join (c :: l) = c ++ join l.
Proof. reflexivity. Qed.

Lemma append_empty (s : string) : s ++ EmptyString = s.
Proof. induction s as [|c s IH]; cbn; [reflexivity | now rewrite IH]. Qed.

(** A text is its characters joined; every character but the last is
    whole. *)
Lemma chars_aux_spec (s : string) (k : nat) :
  s = fst (chars_aux k s) ++ join (snd (chars_aux k s))
  /\ chunked (snd (chars_aux k s))
  /\ (String.length (fst (chars_aux k s)) = k
      \/ ((String.length (fst (chars_aux k s)) < k)%nat
          /\ snd (chars_aux k s) = [])).
Proof.
  revert k. induction s as [|b s IH]; intros k.
  - cbn. split; [reflexivity|]. split; [exact I|].
    destruct k; [now left | right; split; [lia | reflexivity]].
  - cbn [chars_aux]. destruct k as [|k].
    + specialize (IH (char_len b - 1)%nat).
      destruct (chars_aux (char_len b - 1) s) as [c l]. cbn [fst snd] in *.
      destruct IH as [E [C L]]. split; [|split; [|now left]].
      * rewrite join_cons. cbn. now rewrite <- E.
      * cbn [chunked]. split; [|exact C].
        destruct L as [L | [L ->]].
        -- assert (W : whole (String b c)) by exact L. destruct l; auto.
        -- right. exact L.
    + specialize (IH k). destruct (chars_aux k s) as [c l]. cbn [fst snd] in *.
      destruct IH as [E [C L]]. split; [|split; [exact C|]].
      * cbn. now rewrite <- E.
      * cbn [String.length]. destruct L as [L | [L ->]];
          [left; lia | right; split; [lia | reflexivity]].
Qed.

Lemma join_chars (s : string) : join (chars s) = s.
Proof.
  destruct (chars_aux_spec s 0) as [E _]. rewrite chars_aux_fst in E.
  symmetry. exact E.
Qed.

Lemma chunked_chars (s : string) : chunked (chars s).
Proof. exact (proj1 (proj2 (chars_aux_spec s 0))). Qed.

Lemma chars_aux_take (t s : string) :
  chars_aux (String.length t) (t ++ s) = (t, chars s).
Proof.
  induction t as [|a t IH]; cbn [String.length append chars_aux].
  - unfold chars. assert (F := chars_aux_fst s).
    destruct (chars_aux 0 s) as [c l]. cbn in F |- *. now subst c.
  - now rewrite IH.
Qed.

Lemma chars_aux_all (t : string) (k : nat) :
  (String.length t <= k)%nat -> chars_aux k t = (t, []).
Proof.
  revert k. induction t as [|a t IH]; intros k H; [reflexivity|].
  cbn [String.length] in H. destruct k as [|k]; [lia|].
  cbn [chars_aux]. rewrite IH by lia. reflexivity.
Qed.

Lemma chars_whole (c s : string) : whole c -> chars (c ++ s) = c :: chars s.
Proof.
  destruct c as [|b t]; [intros []|]. intros W. unfold whole in W.
  unfold chars. cbn [append chars_aux]. rewrite <- W, chars_aux_take.
  reflexivity.
Qed.

Lemma chars_last (c : string) : whole c \/ short c -> chars c = [c].
Proof.
  destruct c as [|b t]; [intros [[] | []]|]. intros H.
  unfold chars. cbn [chars_aux]. rewrite chars_aux_all; [reflexivity|].
  destruct H as [H | H]; unfold whole, short in H; lia.
Qed.

Lemma chars_join (l : list string) : chunked l -> chars (join l) = l.
Proof.
  induction l as [|c l IH]; [reflexivity|]. intros [H C].
  rewrite join_cons. destruct l as [|d l].
  - cbn. rewrite append_empty. now apply chars_last.
  - rewrite (chars_whole _ _ H). now rewrite (IH C).
Qed.

Lemma chunked_tail (c : string) (l : list string) : chunked (c :: l) -> chunked l.
Proof. now intros [_ C]. Qed.

Lemma chunked_app_r (l1 l2 : list string) : chunked (l1 ++ l2) -> chunked l2.
Proof.
  induction l1 as [|c l1 IH]; [trivial|]. intros C.
  apply IH. exact (chunked_tail _ _ C).
Qed.

Lemma chunked_app_l (l1 l2 : list string) : chunked (l1 ++ l2) -> chunked l1.
Proof.
  induction l1 as [|c l1 IH]; [intros _; exact I|]. intros [H C].
  split; [|now apply IH].
  destruct l1 as [|d l1]; [|exact H].
  destruct l2; [exact H | now left].
Qed.

Lemma lstrip_chars_split (l : list string) :
  exists l1, l = (l1 ++ lstrip_chars l)%list /\ forallb is_space_char l1 = true.
Proof.
  induction l as [|c l [l1 [E F]]]; [now exists []|]. cbn [lstrip_chars].
  destruct (is_space_char c) eqn:B.
  - exists (c :: l1). cbn. rewrite B, F. now rewrite <- E.
  - now exists [].
Qed.

Lemma rstrip_chars_split (l : list string) :
  exists l2, l = (rstrip_chars l ++ l2)%list /\ forallb is_space_char l2 = true.
Proof.
  induction l as [|c l [l2 [E F]]]; [now exists []|]. cbn [rstrip_chars].
  destruct (rstrip_chars l) as [|d t] eqn:R.
  - destruct (is_space_char c) eqn:B.
    + exists (c :: l2). cbn in E. subst l2. cbn. now rewrite B, F.
    + exists l2. cbn in E. subst l2. now split.
  - exists l2. split; [|exact F]. rewrite E at 1. reflexivity.
Qed.

Lemma lstrip_chars_first (l : list string) :
  blank (hd_error (lstrip_chars l)) = false.
Proof.
  induction l as [|c l IH]; [reflexivity|]. cbn [lstrip_chars].
  destruct (is_space_char c) eqn:B; [exact IH | exact B].
Qed.

Lemma lstrip_chars_id (l : list string) :
  blank (hd_error l) = false -> lstrip_chars l = l.
Proof. destruct l as [|c l]; [reflexivity|]. cbn. now intros ->. Qed.

Lemma rstrip_chars_first (l : list string) :
  blank (hd_error l) = false -> blank (hd_error (rstrip_chars l)) = false.
Proof.
  destruct l as [|c l]; [reflexivity|]. cbn [hd_error blank rstrip_chars].
  intros B. destruct (rstrip_chars l); [rewrite B|]; exact B.
Qed.

Lemma rstrip_chars_last (l : list string) :
  blank (last (map Some (rstrip_chars l)) None) = false.
Proof.
  induction l as [|c l IH]; [reflexivity|]. cbn [rstrip_chars].
  destruct (rstrip_chars l) as [|d t].
  - destruct (is_space_char c) eqn:B; [reflexivity | exact B].
  - exact IH.
Qed.

Lemma rstrip_chars_idem (l : list string) :
  rstrip_chars (rstrip_chars l) = rstrip_chars l.
Proof.
  induction l as [|c l IH]; [reflexivity|]. cbn [rstrip_chars].
  destruct (rstrip_chars l) as [|d t] eqn:R.
  - destruct (is_space_char c) eqn:B; [reflexivity|]. cbn. now rewrite B.
  - cbn [rstrip_chars]. cbn [rstrip_chars] in IH. now rewrite IH.
Qed.

(** What [strip] keeps: the characters of the text between the blanks at
    its two ends. *)
Lemma strip_spec (t : string) :
  chars (strip t) = rstrip_chars (lstrip_chars (chars t))
  /\ (exists l1 l2,
         chars t = (l1 ++ chars (strip t) ++ l2)%list
         /\ forallb is_space_char l1 = true /\ forallb is_space_char l2 = true)
  /\ blank (first_char (strip t)) = false
  /\ blank (last_char (strip t)) = false.
Proof.
  destruct (lstrip_chars_split (chars t)) as [l1 [E1 F1]].
  destruct (rstrip_chars_split (lstrip_chars (chars t))) as [l2 [E2 F2]].
  assert (C : chunked (rstrip_chars (lstrip_chars (chars t)))).
  { apply (chunked_app_l _ l2). rewrite <- E2.
    apply (chunked_app_r l1). rewrite <- E1. apply chunked_chars. }
  assert (E : chars (strip t) = rstrip_chars (lstrip_chars (chars t)))
    by exact (chars_join _ C).
  split; [exact E|]. split; [|split].
  - exists l1, l2. rewrite E, <- E2. auto.
  - unfold first_char. rewrite E.
    apply rstrip_chars_first, lstrip_chars_first.
  - unfold last_char. rewrite E. apply rstrip_chars_last.
Qed.

(** X16.  [_clean] takes away the blanks at the two ends of a text, those
    of Unicode included, and nothing else: the characters of the text are
    blanks, the characters of the cleaned text, and blanks, and the
    cleaned text has no blank at either end.  A value that is not text is
    left as it is, and cleaning twice is cleaning once. *)
Theorem clean_spec (c : cell) :
  _clean (_clean c) = _clean c
  /\ (forall t, c = Str t ->
        exists u l1 l2,
          _clean c = Str u
          /\ chars t = (l1 ++ chars u ++ l2)%list
          /\ forallb is_space_char l1 = true
          /\ forallb is_space_char l2 = true
          /\ blank (first_char u) = false
          /\ blank (last_char u) = false)
  /\ ((forall t, c <> Str t) -> _clean c = c).
Proof.
  repeat apply conj.
  - destruct c as [|t|x]; try reflexivity. cbn [_clean]. f_equal.
    destruct (strip_spec t) as [E [_ [F _]]].
    unfold strip at 1. rewrite E.
    unfold first_char in F. rewrite E in F.
    rewrite (lstrip_chars_id _ F), rstrip_chars_idem. reflexivity.
  - intros t ->. destruct (strip_spec t) as [_ [[l1 [l2 [E [F1 F2]]]] [F L]]].
    exists (strip t), l1, l2. cbn [_clean]. auto 10.
  - intros H. destruct c as [|t|x]; try reflexivity. now destruct (H t).
Qed.

Lemma clean_spec_witness :
  _clean (Str "  2. Data sharing ") = Str "2. Data sharing"
  /\ _clean (Str (em_space ++ "Labs" ++ nbsp)) = Str "Labs"
  /\ exists u l1 l2,
       _clean (Str (em_space ++ "Labs" ++ nbsp)) = Str u
       /\ chars (em_space ++ "Labs" ++ nbsp) = (l1 ++ chars u ++ l2)%list
       /\ forallb is_space_char l1 = true
       /\ forallb is_space_char l2 = true
       /\ blank (first_char u) = false /\ blank (last_char u) = false.
Proof.
  split; [reflexivity|]. split; [reflexivity|].
  exact (proj1 (proj2 (clean_spec (Str (em_space ++ "Labs" ++ nbsp))))
               (em_space ++ "Labs" ++ nbsp) eq_refl).
Defined.

Lemma clean_fold (f : cell -> cell) (cs : list string) (d : DataFrame) :
  NoDup cs ->
  Forall2 (fun r r' : Row =>
             forall c, get r' c = if mem c cs && has_col d c
                                  then f (get r c) else get r c)
          (rows d)
          (rows (fold_left (fun d c => if has_col d c then map_column d c f else d)
                           cs d)).
Proof.
  intros ND. revert d. induction ND as [|c0 cs Hn ND IH]; intros d; cbn [fold_left].
  - apply Forall2_refl. intros r c. reflexivity.
  - destruct (has_col d c0) eqn:H0.
    + specialize (IH (map_column d c0 f)).
      change (rows (map_column d c0 f))
        with (map (fun r => set_cell r c0 (f (get r c0))) (rows d)) in IH.
      apply Forall2_map_left in IH.
      eapply Forall2_weaken; [|exact IH]. cbn beta. intros r r' R c.
      rewrite R. change (has_col (map_column d c0 f) c) with (has_col d c).
      destruct (String.eqb_spec c c0) as [->|N].
      * assert (M : mem c0 cs = false).
        { destruct (mem c0 cs) eqn:M; [|reflexivity].
          apply mem_In in M. contradiction. }
        rewrite M. cbn [andb]. rewrite get_set_cell_same.
        unfold mem. cbn. now rewrite String.eqb_refl, H0.
      * rewrite get_set_cell_other by congruence.
        now rewrite mem_cons_other.
    + eapply Forall2_weaken; [|apply IH]. cbn beta. intros r r' R c.
      rewrite R. destruct (String.eqb_spec c c0) as [->|N].
      * rewrite H0, !andb_false_r. reflexivity.
      * now rewrite mem_cons_other.
Qed.

(** X17.  Cleaning keeps the columns and the rows in their order; in each
    row, the cells of the five classification columns that the table has
    are cleaned, and every other cell is unchanged. *)
Theorem clean_columns_cells (raw : DataFrame) :
  columns (clean_columns raw) = columns raw
  /\ Forall2 (fun r r' : Row =>
                forall c, get r' c = if mem c cleaned_columns && has_col raw c
                                     then _clean (get r c) else get r c)
             (rows raw) (rows (clean_columns raw)).
Proof.
  split; [apply columns_clean|].
  apply (clean_fold _clean cleaned_columns raw).
  repeat constructor; cbn; intros H;
    repeat (destruct H as [H | H]; [vm_compute in H; discriminate H|]);
    exact H.
Qed.

Lemma clean_columns_cells_witness :
  get (hd [] (rows example_df)) COL_L1 = Str " Surveillance systems"
  /\ get (hd [] (rows (clean_columns example_df))) COL_L1
     = Str "Surveillance systems"
  /\ get (hd [] (rows (clean_columns example_df))) COL_TITLE = Str "A".
Proof.
  split; [reflexivity|].
  assert (H := proj2 (clean_columns_cells example_df)).
  destruct (rows example_df) as [|r rs] eqn:E; [discriminate E|].
  destruct (rows (clean_columns example_df)) as [|r' rs'] eqn:E';
    [inversion H|].
  inversion H as [|? ? ? ? R _]; subst.
  injection E as <- _. cbn [hd].
  split.
  - rewrite (R COL_L1). reflexivity.
  - rewrite (R COL_TITLE). reflexivity.
Defined.

(** ** The greatest count *)

(** X18.  [max_n] is at least 1 and at least every count of the table; it
    is 1 for the empty table, so the size reference is never built on a
    zero or missing maximum. *)
Theorem max_n_bounds (a : list AggRow) :
  (1 <= max_n a)%nat
  /\ (forall r, In r a -> (n r <= max_n a)%nat)
  /\ (a = [] -> max_n a = 1%nat).
Proof.
  unfold max_n. destruct a as [|r0 a]; cbn [map series_max max_1].
  - repeat split; try lia. intros r [].
  - destruct (fold_max_ge (map n a) (n r0)) as [H1 H2].
    destruct (Nat.ltb_spec 1 (fold_left Nat.max (map n a) (n r0))).
    + repeat split; try lia; try discriminate.
      intros r [<- | Hr]; [exact H1|]. apply H2. now apply in_map.
    + repeat split; try lia; try discriminate.
      intros r [<- | Hr]; [lia|].
      assert (n r <= fold_left Nat.max (map n a) (n r0))%nat
        by (apply H2; now apply in_map).
      lia.
Qed.

Lemma max_n_bounds_witness :
  In example_agg_row (agg example_globals)
  /\ (n example_agg_row <= max_n (agg example_globals))%nat
  /\ max_n [] = 1%nat.
Proof.
  split; [exact example_agg_row_In|].
  split; [exact (proj1 (proj2 (max_n_bounds (agg example_globals)))
                       example_agg_row example_agg_row_In)|].
  exact (proj2 (proj2 (max_n_bounds [])) eq_refl).
Defined.

(** ** Titles of the column blocks *)

Lemma append_inj_left (p a b : string) : p ++ a = p ++ b -> a = b.
Proof.
  induction p as [|c p IH]; cbn; [auto|]. intros H. injection H as H. auto.
Qed.

Lemma items_form (py_repr : cell -> string) (a : list AggRow) (t x : string) :
  In x (x_items_by_type py_repr a t) ->
  exists name, x = COL_PREFIX_X ++ t ++ SEP ++ name.
Proof.
  unfold x_items_by_type. intros H. apply in_map_iff in H as [name [<- _]].
  now exists name.
Qed.

Lemma NoDup_map_inj {A B : Type} (f : A -> B) (l : list A) :
  (forall x y, f x = f y -> x = y) -> NoDup l -> NoDup (map f l).
Proof.
  intros Inj. induction 1 as [|x l Hn ND IH]; cbn; constructor; [|assumption].
  intros H. apply in_map_iff in H as [y [E Hy]]. apply Inj in E. now subst y.
Qed.

Lemma items_NoDup (py_repr : cell -> string) (a : list AggRow) (t : string) :
  NoDup (x_items_by_type py_repr a t).
Proof.
  unfold x_items_by_type. apply NoDup_map_inj.
  - intros x y H. apply append_inj_left in H. apply append_inj_left in H.
    now apply append_inj_left in H.
  - apply (unique_NoDup _ _ String.eqb_eq).
Qed.

Lemma order_x_NoDup (py_repr : cell -> string) (a : list AggRow) :
  NoDup (order_x py_repr a).
Proof.
  unfold order_x, tiers. cbn [flat_map]. rewrite app_nil_r.
  assert (F := items_form py_repr a).
  assert (N := items_NoDup py_repr a).
  apply NoDup_app; [| apply NoDup_app |].
  - constructor; [|apply N]. intros H. apply F in H as [name H].
    vm_compute in H. discriminate H.
  - constructor; [|apply N]. intros H. apply F in H as [name H].
    vm_compute in H. discriminate H.
  - constructor; [|apply N]. intros H. apply F in H as [name H].
    vm_compute in H. discriminate H.
  - intros x [<- | H1] [H2 | H2].
    + vm_compute in H2. discriminate H2.
    + apply F in H2 as [name H2]. vm_compute in H2. discriminate H2.
    + apply F in H1 as [name H1]. subst x. vm_compute in H2. discriminate H2.
    + apply F in H1 as [n1 H1]. apply F in H2 as [n2 H2]. subst x.
      vm_compute in H2. discriminate H2.
  - intros x [<- | H1] H2; apply in_app_or in H2 as [[H2 | H2] | [H2 | H2]].
    + vm_compute in H2. discriminate H2.
    + apply F in H2 as [name H2]. vm_compute in H2. discriminate H2.
    + vm_compute in H2. discriminate H2.
    + apply F in H2 as [name H2]. vm_compute in H2. discriminate H2.
    + apply F in H1 as [name H1]. subst x. vm_compute in H2. discriminate H2.
    + apply F in H1 as [n1 H1]. apply F in H2 as [n2 H2]. subst x.
      vm_compute in H2. discriminate H2.
    + apply F in H1 as [name H1]. subst x. vm_compute in H2. discriminate H2.
    + apply F in H1 as [n1 H1]. apply F in H2 as [n2 H2]. subst x.
      vm_compute in H2. discriminate H2.
Qed.

Lemma list_index_nth (l : list string) (i : nat) (x : string) :
  NoDup l -> nth_error l i = Some x -> list_index x l = Some i.
Proof.
  intros ND. revert i. induction ND as [|y l Hn ND IH]; intros i H.
  - destruct i; discriminate H.
  - destruct i as [|i]; cbn in H |- *.
    + injection H as ->. now rewrite String.eqb_refl.
    + destruct (String.eqb_spec y x) as [->|N].
      * apply nth_error_In in H. contradiction.
      * now rewrite (IH i H).
Qed.

Lemma flat_map_split {A B : Type} (f : A -> list B) (t : A) (ts : list A) :
  In t ts -> exists pre post, flat_map f ts = (pre ++ f t ++ post)%list.
Proof.
  intros H. apply in_split in H as [l1 [l2 ->]].
  exists (flat_map f l1), (flat_map f l2).
  now rewrite flat_map_app.
Qed.

Lemma nth_error_last (x d : string) (l : list string) :
  nth_error (x :: l) (List.length l) = Some (last (x :: l) d).
Proof.
  revert x. induction l as [|y l IH]; intros x; [reflexivity|].
  cbn [List.length nth_error]. rewrite IH. reflexivity.
Qed.

(** X19.  For a tier without item no title is placed.  For a tier with
    items the two look-ups and the division succeed: the first index is
    the place right after the header of the tier, the last index is the
    place of the last item of the tier, and the centre is their mean
    divided by the last position of the axis, which is not zero. *)
Theorem block_title_spec (py_repr : cell -> string) (a : list AggRow) (t : string) :
  In t tiers ->
  (x_items_by_type py_repr a t = [] -> block_title_of py_repr a t = NoTitle)
  /\ (x_items_by_type py_repr a t <> [] ->
      exists first_idx last_idx : nat,
        block_title_of py_repr a t
        = TitleAt first_idx last_idx
            (F64.div (F64.div (F64.of_Z (Z.of_nat first_idx + Z.of_nat last_idx))
                              (F64.of_Z 2))
                     (F64.of_Z (Z.of_nat (List.length (order_x py_repr a)) - 1)))
        /\ (1 <= first_idx)%nat
        /\ nth_error (order_x py_repr a) (first_idx - 1) = Some (HDR_PREFIX_X ++ t)
        /\ nth_error (order_x py_repr a) first_idx
           = Some (hd EmptyString (x_items_by_type py_repr a t))
        /\ nth_error (order_x py_repr a) last_idx
           = Some (last (x_items_by_type py_repr a t) EmptyString)
        /\ last_idx = (first_idx + List.length (x_items_by_type py_repr a t) - 1)%nat
        /\ (1 <= Z.of_nat (List.length (order_x py_repr a)) - 1)%Z).
Proof.
  intros Ht. split.
  - intros E. unfold block_title_of. now rewrite E.
  - intros NE.
    destruct (x_items_by_type py_repr a t) as [|first rest] eqn:E; [congruence|].
    assert (ND := order_x_NoDup py_repr a).
    destruct (flat_map_split
                (fun t => (HDR_PREFIX_X ++ t) :: x_items_by_type py_repr a t)
                t tiers Ht) as [pre [post Sp]].
    fold (order_x py_repr a) in Sp. cbn beta in Sp. rewrite E in Sp.
    assert (P0 : nth_error (order_x py_repr a) (List.length pre)
                 = Some (HDR_PREFIX_X ++ t)).
    { rewrite Sp, nth_error_app2, Nat.sub_diag by lia. reflexivity. }
    assert (P1 : nth_error (order_x py_repr a) (S (List.length pre))
                 = Some first).
    { rewrite Sp, nth_error_app2 by lia.
      replace (S (List.length pre) - List.length pre)%nat with 1%nat by lia.
      reflexivity. }
    assert (P2 : nth_error (order_x py_repr a)
                           (S (List.length pre) + List.length rest)
                 = Some (last (first :: rest) first)).
    { rewrite Sp, nth_error_app2 by lia.
      replace (S (List.length pre) + List.length rest - List.length pre)%nat
        with (S (List.length rest)) by lia.
      cbn [app nth_error].
      change (first :: (rest ++ post)%list) with ((first :: rest) ++ post)%list.
      rewrite nth_error_app1 by (cbn; lia).
      apply nth_error_last. }
    assert (Len : (2 <= List.length (order_x py_repr a))%nat).
    { rewrite Sp, !length_app. cbn [List.length]. lia. }
    exists (S (List.length pre)), (S (List.length pre) + List.length rest)%nat.
    split.
    + unfold block_title_of. rewrite E.
      rewrite (list_index_nth _ _ _ ND P1), (list_index_nth _ _ _ ND P2).
      destruct (Z.eqb_spec (Z.of_nat (List.length (order_x py_repr a)) - 1) 0);
        [lia | reflexivity].
    + repeat apply conj.
      * lia.
      * cbn [Nat.sub]. rewrite Nat.sub_0_r. exact P0.
      * exact P1.
      * rewrite P2. f_equal. clear. revert first.
        induction rest as [|y rest IH]; intros first; [reflexivity|].
        cbn [last] in IH |- *. destruct rest; [reflexivity|]. apply IH.
      * cbn [List.length]. lia.
      * lia.
Qed.

Lemma block_title_spec_witness :
  In FINAL tiers
  /\ x_items_by_type no_repr (agg example_globals) FINAL <> []
  /\ exists first_idx last_idx c,
       block_title_of no_repr (agg example_globals) FINAL
       = TitleAt first_idx last_idx c
       /\ nth_error (order_x no_repr (agg example_globals)) (first_idx - 1)
          = Some (HDR_PREFIX_X ++ FINAL).
Proof.
  assert (T : In FINAL tiers) by (cbn; tauto).
  assert (NE : x_items_by_type no_repr (agg example_globals) FINAL <> [])
    by (vm_compute; discriminate).
  split; [exact T|]. split; [exact NE|].
  destruct (proj2 (block_title_spec no_repr (agg example_globals) FINAL T) NE)
    as [i [j [B [_ [H _]]]]].
  exists i, j. eexists. split; [exact B | exact H].
Defined.

(** ** What the parse returns *)

Lemma prefix_extend (p x y : string) :
  String.prefix p x = true -> String.prefix p (x ++ y) = true.
Proof.
  revert x. induction p as [|c p IH]; intros x H.
  - now destruct (x ++ y).
  - destruct x as [|d x]; [discriminate|]. cbn in H |- *.
    destruct (ascii_dec c d); [now apply IH | discriminate].
Qed.

Lemma split1_leftmost (sep s a b : string) :
  sep <> EmptyString -> split1 sep s = [a; b] -> contains a sep = false.
Proof.
  intros Hs. revert a b. induction s as [|c s IH]; intros a b; rewrite split1_unfold.
  - destruct (String.prefix sep EmptyString) eqn:P; [|discriminate].
    destruct sep; [congruence | discriminate].
  - destruct (String.prefix sep (String c s)) eqn:P.
    + intros H. injection H as <- _. cbn. destruct sep; [congruence | reflexivity].
    + destruct (split1 sep s) as [|a' [|b' [|? ?]]] eqn:E; try discriminate.
      intros H. injection H as <- <-. cbn [contains].
      rewrite (IH a' b' eq_refl), orb_false_r.
      destruct (String.prefix sep (String c a')) eqn:Q; [|reflexivity].
      rewrite (split1_sound _ _ _ _ E) in P.
      apply (prefix_extend _ _ (sep ++ b')) in Q. cbn [append] in Q. congruence.
Qed.

(** X20.  Whatever pair the parse of a key returns rebuilds the key: a key
    that begins with the prefix and parses into [(a, b)] is the prefix,
    [a], the separator and [b]; and [a] holds no separator, the cut being
    at its first occurrence. *)
Theorem parse_key_inverse (p k a b : string) :
  startswith k p = true -> parse_key p k = Ok (a, b) ->
  k = p ++ a ++ SEP ++ b /\ contains a SEP = false.
Proof.
  unfold startswith. intros P H.
  assert (E := prefix_decompose _ _ P).
  remember (drop (String.length p) k) as rest eqn:R. clear R P. subst k.
  rewrite parse_key_append in H.
  destruct (split1 SEP rest) as [|a' [|b' [|? ?]]] eqn:S1; try discriminate.
  assert (Ea : a' = a) by congruence. assert (Eb : b' = b) by congruence.
  subst a' b'. split.
  - f_equal. now apply split1_sound.
  - apply (split1_leftmost SEP rest a b); [discriminate | exact S1].
Qed.

Lemma parse_key_inverse_witness :
  startswith "__ROW__Labs || || 1. Testing" ROW_PREFIX_Y = true
  /\ parse_key ROW_PREFIX_Y "__ROW__Labs || || 1. Testing"
     = Ok ("Labs", "|| 1. Testing")
  /\ "__ROW__Labs || || 1. Testing"
     = ROW_PREFIX_Y ++ "Labs" ++ SEP ++ "|| 1. Testing"
  /\ contains "Labs" SEP = false.
Proof.
  split; [reflexivity|]. split; [reflexivity|].
  exact (parse_key_inverse ROW_PREFIX_Y "__ROW__Labs || || 1. Testing"
                           "Labs" "|| 1. Testing" eq_refl eq_refl).
Defined.

(** ** The reversed axis *)

Lemma combine_snoc {A B : Type} (l : list A) (l' : list B) (x : A) (y : B) :
  List.length l = List.length l' ->
  combine (l ++ [x]) (l' ++ [y]) = (combine l l' ++ [(x, y)])%list.
Proof.
  revert l'. induction l as [|a l IH]; intros [|b l'] H; try discriminate H.
  - reflexivity.
  - cbn. f_equal. apply IH. now injection H.
Qed.

Lemma combine_rev {A B : Type} (l : list A) (l' : list B) :
  List.length l = List.length l' ->
  combine (rev l) (rev l') = rev (combine l l').
Proof.
  revert l'. induction l as [|a l IH]; intros [|b l'] H; try discriminate H.
  - reflexivity.
  - cbn. injection H as H.
    rewrite combine_snoc by now rewrite !length_rev.
    now rewrite IH.
Qed.

(** X21.  Reversing the y axis keeps every tick value with its tick text:
    the pairs of the reversed lists are the pairs of the lists, reversed;
    the two lists have the same length. *)
Theorem reversed_axis_aligned (wrap : string -> Z -> list string)
        (py_repr : cell -> string)
        (sort : (AggRow -> Z) -> list AggRow -> list AggRow) (a : list AggRow) :
  List.length (y_ticktext wrap py_repr sort a)
  = List.length (order_y py_repr sort a)
  /\ combine (order_y_rev py_repr sort a) (y_ticktext_rev wrap py_repr sort a)
     = rev (combine (order_y py_repr sort a) (y_ticktext wrap py_repr sort a)).
Proof.
  assert (L : List.length (y_ticktext wrap py_repr sort a)
              = List.length (order_y py_repr sort a)).
  { unfold y_ticktext, order_y. rewrite !length_flat_map_sum.
    f_equal. apply map_ext. intros l1. cbn. now rewrite !length_map. }
  split; [exact L|].
  unfold order_y_rev, y_ticktext_rev. apply combine_rev. now symmetry.
Qed.

(** ** Rows of the aggregate table *)

(** X22.  In every row of the aggregate table the level 1, the level 2
    and the outcome name are not missing, the outcome type is one of the
    three tier names, and the count is at least 1. *)
Theorem agg_row_invariant (mean : list cell -> spec_float) (raw : DataFrame)
        (g : Globals) (r : AggRow) :
  build mean raw = Ok g -> In r (agg g) ->
  isna (agg_L1 r) = false /\ isna (agg_L2 r) = false
  /\ isna (outcome_name r) = false
  /\ (exists t, In t tiers /\ outcome_type r = Str t)
  /\ (1 <= n r)%nat.
Proof.
  intros B Hr.
  destruct (agg_key_present _ _ _ _ B Hr) as [H1 [H2 H3]].
  split; [exact H1|]. split; [exact H2|]. split; [exact H3|].
  split; [exact (agg_outcome_type _ _ _ _ B Hr)|].
  destruct (build_inv _ _ _ B) as [_ A].
  destruct (aggregate_inv _ _ _ _ A Hr) as [E NE]. rewrite E.
  destruct (rows_with _ _); [congruence | cbn; lia].
Qed.

Lemma agg_row_invariant_witness :
  build naive_mean example_df = Ok example_globals
  /\ In example_agg_row (agg example_globals)
  /\ isna (agg_L1 example_agg_row) = false
  /\ (1 <= n example_agg_row)%nat.
Proof.
  split; [exact example_built|]. split; [exact example_agg_row_In|].
  destruct (agg_row_invariant naive_mean example_df example_globals
                              example_agg_row example_built example_agg_row_In)
    as [H1 [_ [_ [_ H5]]]].
  split; [exact H1 | exact H5].
Defined.

(** ** Columns of the long table *)

Lemma mem_union_inv (c : string) (dfs : list DataFrame) :
  mem c (union_cols dfs) = true ->
  exists d, In d dfs /\ mem c (columns d) = true.
Proof.
  unfold union_cols.
  assert (G : forall acc,
             mem c (fold_left
                      (fun acc d => (acc ++ filter (fun c => negb (mem c acc))
                                                   (columns d))%list)
                      dfs acc) = true ->
             mem c acc = true \/ exists d, In d dfs /\ mem c (columns d) = true).
  { induction dfs as [|d0 dfs IH]; intros acc H; cbn [fold_left] in H.
    - now left.
    - destruct (IH _ H) as [H1 | [d [Hd Hc]]].
      + rewrite mem_app in H1. apply orb_true_iff in H1 as [H1 | H1]; [now left|].
        right. exists d0. split; [now left|].
        apply mem_In in H1. apply filter_In in H1 as [H1 _]. now apply mem_In.
      + right. exists d. split; [now right | assumption]. }
  intros H. destruct (G [] H) as [H1 | H1]; [discriminate H1 | exact H1].
Qed.

Lemma tier_long_cols (df d : DataFrame) (out strength sign tier c : string) :
  tier_long df out strength sign tier = Ok d ->
  has_col d c = true <->
  (In c keep_base /\ has_col df c = true)
  \/ In c [out; strength; sign] \/ In c added_columns.
Proof.
  intros T. destruct (tier_long_inv _ _ _ _ _ _ T) as [d2 [-> [_ [_ Hcols]]]].
  rewrite !has_col_assign, !orb_true_iff.
  unfold has_col at 1. rewrite Hcols, mem_In, in_app_iff, cols_keep_has.
  rewrite !String.eqb_eq. cbn [In added_columns]. split.
  - intros [[[[[H | H] | H] | H] | H] | H]; auto 10.
  - intros [H | [H | [H | [H | [H | [H | []]]]]]]; auto 10.
Qed.

(** X23.  The long table has exactly these columns: the display and level
    columns that the input has, the outcome, strength and sign columns of
    the intermediate and final tiers, the four added columns, and the
    three impact columns when the input has all of them. *)
Theorem long_columns (mean : list cell -> spec_float) (raw : DataFrame)
        (g : Globals) (c : string) :
  build mean raw = Ok g ->
  has_col (long g) c = true <->
  (In c keep_base /\ has_col raw c = true)
  \/ In c [COL_INT_OUT; COL_INT_STRENGTH; COL_INT_SIGN;
           COL_FIN_OUT; COL_FIN_STRENGTH; COL_FIN_SIGN]
  \/ In c added_columns
  \/ (forallb (has_col raw) imp_required = true /\ In c imp_required).
Proof.
  intros B. destruct (build_inv _ _ _ B) as [L _].
  destruct (long_of_inv _ _ L) as [il [fl [ml [Hi [Hf [Hm E]]]]]].
  assert (Ci := fun c => tier_long_cols _ _ _ _ _ _ c Hi).
  assert (Cf := fun c => tier_long_cols _ _ _ _ _ _ c Hf).
  assert (Imp : forallb (has_col (clean_columns raw)) imp_required
                = forallb (has_col raw) imp_required).
  { unfold imp_required. cbn [forallb]. now rewrite !has_col_clean. }
  assert (Cm : has_col ml c = true <->
               (forallb (has_col raw) imp_required = true
                /\ ((In c keep_base /\ has_col raw c = true)
                    \/ In c imp_required \/ In c added_columns))
               \/ (forallb (has_col raw) imp_required = false
                   /\ has_col il c = true)).
  { unfold imp_long in Hm. rewrite Imp in Hm.
    destruct (forallb (has_col raw) imp_required).
    - rewrite (tier_long_cols _ _ _ _ _ _ c Hm), has_col_clean.
      unfold imp_required. split; [intros H; left; now split | ].
      intros [[_ H] | [H _]]; [exact H | discriminate H].
    - injection Hm as <-. unfold has_col at 1. cbn [columns].
      fold (has_col il c). split; [intros H; right; now split|].
      intros [[H _] | [_ H]]; [discriminate H | exact H]. }
  specialize (Ci c). specialize (Cf c). rewrite has_col_clean in Ci, Cf.
  rewrite E. split.
  - intros H. unfold has_col, concat in H. cbn [columns] in H.
    apply mem_union_inv in H as [d [[<- | [<- | [<- | []]]] Hc]].
    + change (has_col il c = true) in Hc.
      apply Ci in Hc. cbn [In] in Hc |- *. tauto.
    + change (has_col fl c = true) in Hc.
      apply Cf in Hc. cbn [In] in Hc |- *. tauto.
    + change (has_col ml c = true) in Hc.
      apply Cm in Hc. destruct Hc as [[A Hc] | [_ Hc]].
      * cbn [In] in Hc |- *. tauto.
      * apply Ci in Hc. cbn [In] in Hc |- *. tauto.
  - intros H. unfold has_col, concat. cbn [columns].
    destruct H as [H | [H | [H | [A H]]]].
    + apply mem_union_cols with il; [now left|]. apply Ci. now left.
    + cbn [In] in H. destruct H as [H | [H | [H | H]]];
        try (apply mem_union_cols with il; [now left|]; apply Ci;
             cbn [In]; tauto).
      apply mem_union_cols with fl; [cbn; tauto|]. apply Cf. cbn [In]. tauto.
    + apply mem_union_cols with il; [now left|]. apply Ci. tauto.
    + apply mem_union_cols with ml; [cbn; tauto|]. apply Cm. left. tauto.
Qed.

Lemma long_columns_witness :
  build naive_mean example_df = Ok example_globals
  /\ has_col (long example_globals) COL_FIN_SIGN = true
  /\ has_col (long example_globals) COL_IMP_SIGN = false
  /\ has_col (long example_globals) "strength" = true.
Proof.
  split; [exact example_built|].
  split.
  - refine (proj2 (long_columns naive_mean example_df example_globals
                                COL_FIN_SIGN example_built)
                  (or_intror (or_introl _))).
    cbn [In]. auto 10.
  - split; [reflexivity|].
    refine (proj2 (long_columns naive_mean example_df example_globals
                                "strength" example_built)
                  (or_intror (or_intror (or_introl _)))).
    cbn [In added_columns]. auto 10.
Defined.
